(** * go-dmr, [data.go]: data blocks and data fragments

    A shallow embedding of the block codec ([ParseDataBlock],
    [DataBlock.Bytes]), the fragmenter ([DataFragment.DataBlocks]), the
    reassembler ([CombineDataBlocks]) and the text message functions
    ([BuildMessageData], [ParseMessageData]) of package [dmr], with the
    runtime panics of Go (index out of range, slice bounds out of range,
    integer divide by zero) made explicit.

    Conventions.
    - Go's [int] is modelled by [Z] without wrap-around: every [int] the
      code computes is bounded by [len(df.Data) + 22] or by [1503 + 255],
      far below [2^63].
    - [uint8], [uint16] and [uint32] values are [Z] with the wrap-around
      written out ([uint8], [uint16], [uint32] below).
    - A [[]byte] is modelled with its capacity: the elements within its
      length, and the elements of the backing array between length and
      capacity, which a reslice [s[:n]] with [n <= cap(s)] brings back. *)

From Stdlib Require Import ZArith Lia.
From stdpp Require Import base numbers option list list_numbers gmap.

Local Open Scope Z_scope.

(** ** Machine integers *)

Definition uint8 (x : Z) : Z := x `mod` 2 ^ 8.
Definition uint16 (x : Z) : Z := x `mod` 2 ^ 16.
Definition uint32 (x : Z) : Z := x `mod` 2 ^ 32.

(** ** Panics and results *)

Inductive panic : Type :=
  | IndexOutOfRange (i n : Z)
  | SliceBoundsOutOfRange
  | IntegerDivideByZero.

Inductive outcome (A : Type) : Type :=
  | Normal (a : A)
  | Panics (p : panic).
Arguments Normal {A} a.
Arguments Panics {A} p.

#[global] Instance outcome_ret : MRet outcome := fun A a => Normal a.
#[global] Instance outcome_bind : MBind outcome := fun A B k m =>
  match m with
  | Normal a => k a
  | Panics p => Panics p
  end.

(** [for x := range xs { s = body(s, x) }] where the body may panic. *)
Fixpoint forM {S X : Type} (body : S → X → outcome S) (xs : list X) (s : S)
    : outcome S :=
  match xs with
  | [] => Normal s
  | x :: xs => s' ← body s x; forM body xs s'
  end.

(** The offsets visited by [for i := 0; i < bound; i += 2]. *)
Definition pair_offsets (bound : Z) : list Z :=
  (λ k, 2 * k) <$> seqZ 0 ((bound + 1) `div` 2).

(** ** Byte slices *)

Record bytes : Type := Bytes { elems : list Z; spare : list Z }.

Definition len (s : bytes) : Z := Z.of_nat (length (elems s)).
Definition cap (s : bytes) : Z := Z.of_nat (length (elems s ++ spare s)).

(** [make([]byte, n)] *)
Definition make (n : Z) : bytes := Bytes (replicate (Z.to_nat n) 0) [].

(** Element [j] of an array, zero past its end. *)
Definition byteAt (l : list Z) (j : nat) : Z := default 0 (l !! j).

(** [s[i]] *)
Definition index (s : bytes) (i : Z) : outcome Z :=
  if decide (0 ≤ i < len s) then Normal (byteAt (elems s) (Z.to_nat i))
  else Panics (IndexOutOfRange i (len s)).

(** [s[i] = v] *)
Definition set_index (s : bytes) (i v : Z) : outcome bytes :=
  if decide (0 ≤ i < len s)
  then Normal (Bytes (<[Z.to_nat i := v]> (elems s)) (spare s))
  else Panics (IndexOutOfRange i (len s)).

(** [s[lo:hi]]: the upper bound is checked against the capacity. *)
Definition slice (s : bytes) (lo hi : Z) : outcome bytes :=
  if decide (0 ≤ lo ≤ hi ∧ hi ≤ cap s)
  then let arr := elems s ++ spare s in
       Normal (Bytes (take (Z.to_nat (hi - lo)) (drop (Z.to_nat lo) arr))
                     (drop (Z.to_nat hi) arr))
  else Panics SliceBoundsOutOfRange.

(** [copy(dst, src)]: copies [min(len(dst), len(src))] elements. *)
Definition copy (dst src : bytes) : bytes :=
  Bytes (list_inserts 0 (elems src) (elems dst)) (spare dst).

(** [copy(dst[off:], src)], as it changes [dst]. *)
Definition copy_at (dst : bytes) (off : Z) (src : bytes) : outcome bytes :=
  if decide (0 ≤ off ≤ len dst)
  then Normal (Bytes (list_inserts (Z.to_nat off) (elems src) (elems dst))
                     (spare dst))
  else Panics SliceBoundsOutOfRange.

(** ** Declarations of package [dmr] outside [data.go]

    The data type codes [Rate12Data], [Rate34Data] and [Data] and the
    bit-serial checksum accumulators [crc9], [crc9end], [crc32] and
    [crc32end] are declared in other files of the package. The development
    is parametric in them. The codes are pairwise distinct (they are keys
    of one map literal), and [crc32end] leaves a [uint32] behind, as any
    function writing through a [*uint32] does. *)

Class Externals : Type := {
  Rate12Data : Z;
  Rate34Data : Z;
  Data : Z;
  crc9 : Z → Z → Z → Z;
  crc9end : Z → Z → Z;
  crc32 : Z → Z → Z;
  crc32end : Z → Z;
  dataTypes_distinct :
    Rate12Data ≠ Rate34Data ∧ Rate12Data ≠ Data ∧ Rate34Data ≠ Data;
  crc32end_uint32 : ∀ crc, 0 ≤ crc32end crc < 2 ^ 32
}.

(** [B00000001], a bit mask constant of the package. *)
Definition B00000001 : Z := 1.

Definition MaxPacketFragmentSize : Z := 1500.

Inductive error : Type :=
  | BlockCRCError (crc stored : Z)
  | NoDataBlocks
  | FragmentCRCError (crc stored : Z).

Module DataBlock.
Record t : Type := mk {
  Serial : Z;
  CRC : Z;
  OK : bool;
  Data : bytes;
  Length : Z
}.
End DataBlock.

Module DataFragment.
Record t : Type := mk {
  Data : bytes;
  Stored : Z;
  Needed : Z;
  CRC : Z
}.
End DataFragment.

Section data.
Context `{Externals}.

(** ** Tables *)

Definition crc9Masks : gmap Z Z :=
  {[ Rate12Data := 0x00f0; Rate34Data := 0x01ff ]}.

Definition dataBlockLengths : gmap Z Z :=
  {[ Rate12Data := 12; Rate34Data := 18; Data := 22 ]}.

(** ** Block codec *)

Definition calculateCRC9 (serial : Z) (data : bytes) (dataType : Z) : Z :=
  let crc := foldl (λ crc block, crc9 crc block 8) 0 (elems data) in
  let crc := crc9 crc serial 7 in
  let crc := crc9end crc 8 in
  let crc := uint16 (Z.lnot crc) in
  let crc := Z.land crc 0x01ff in
  Z.lxor crc (default 0 (crc9Masks !! dataType)).

Definition userDataLength (dataType : Z) (confirmed : bool) : Z :=
  let '(size, ok) :=
    match dataBlockLengths !! dataType with
    | Some size => (size, true)
    | None => (0, false)
    end in
  if ok && confirmed then size - 2 else size.

Definition ParseDataBlock (data : bytes) (dataType : Z) (confirmed : bool)
    : outcome (option DataBlock.t * option error) :=
  let length := uint8 (userDataLength dataType confirmed) in
  if confirmed then
    b0 ← index data 0;
    let serial := Z.shiftr b0 1 in
    b1 ← index data 1;
    let stored :=
      Z.lor (uint16 (Z.shiftl (Z.land b0 B00000001) 8)) b1 in
    src ← slice data 2 (uint8 (2 + length));
    let payload := copy (make length) src in
    let crc := calculateCRC9 serial payload dataType in
    if decide (crc ≠ stored)
    then Normal (None, Some (BlockCRCError crc stored))
    else Normal (Some (DataBlock.mk serial stored true payload length), None)
  else
    src ← slice data 0 length;
    let payload := copy (make length) src in
    Normal (Some (DataBlock.mk 0 0 true payload length), None).

(** ** Fragmenter *)

(** Lines 124-129: the number of blocks for [stored] bytes. The caller has
    checked [blockCap ≠ 0]; Go's [/] truncates. *)
Definition neededBlocks (stored blockCap : Z) : Z :=
  let needed := (stored + blockCap - 1) `quot` blockCap in
  if decide (needed * blockCap - stored < 4) then needed + 1 else needed.

(** Lines 132-143: the swapped-pair CRC-32 loop, from the accumulator
    [crc]. *)
Definition fragmentCRC32 (data : bytes) (stored bound crc : Z) : outcome Z :=
  forM (λ crc i,
          crc ← (if decide (i + 1 < stored)
                 then b ← index data (i + 1); mret (crc32 crc b)
                 else mret (crc32 crc 0));
          if decide (i < stored)
          then b ← index data i; mret (crc32 crc b)
          else mret (crc32 crc 0))
       (pair_offsets bound) crc.

(** Lines 151-174: block [i] of the loop, with the running offset
    [stored]; returns the block and the new offset. *)
Definition dataBlock (df : DataFragment.t) (dataType blockCap : Z)
    (i stored : Z) : outcome (DataBlock.t * Z) :=
  let length := uint8 blockCap in
  let data := make length in
  let store :=
    if decide (DataFragment.Stored df - stored < length)
    then DataFragment.Stored df - stored else length in
  src ← slice (DataFragment.Data df) stored (stored + store);
  let data := copy data src in
  let stored := stored + store in
  data ← (if decide (i = DataFragment.Needed df - 1)
          then
            let crc := DataFragment.CRC df in
            data ← set_index data (uint8 (length - 1)) (uint8 (Z.shiftr crc 24));
            data ← set_index data (uint8 (length - 2)) (uint8 (Z.shiftr crc 16));
            data ← set_index data (uint8 (length - 3)) (uint8 (Z.shiftr crc 8));
            set_index data (uint8 (length - 4)) (uint8 crc)
          else mret data);
  let serial := uint8 (i `rem` 128) in
  mret (DataBlock.mk serial (calculateCRC9 serial data dataType) false
                     data length,
        stored).

Fixpoint fillBlocks (df : DataFragment.t) (dataType blockCap : Z)
    (idxs : list Z) (stored : Z) : outcome (list DataBlock.t) :=
  match idxs with
  | [] => mret []
  | i :: idxs =>
      '(block, stored) ← dataBlock df dataType blockCap i stored;
      blocks ← fillBlocks df dataType blockCap idxs stored;
      mret (block :: blocks)
  end.

(** [func (df *DataFragment) DataBlocks]: the fragment as the call leaves
    it, and the returned pair. *)
Definition DataBlocks (df : DataFragment.t) (dataType : Z) (confirm : bool)
    : outcome (DataFragment.t * (list DataBlock.t * option error)) :=
  let data := DataFragment.Data df in
  let Stored := len data in
  let Stored :=
    if decide (Stored > MaxPacketFragmentSize) then MaxPacketFragmentSize
    else Stored in
  let blockCap := userDataLength dataType confirm in
  if decide (blockCap = 0) then Panics IntegerDivideByZero else
  let Needed := neededBlocks Stored blockCap in
  crc ← fragmentCRC32 data Stored (Needed * blockCap - 4) (DataFragment.CRC df);
  let crc := crc32end crc in
  let df := DataFragment.mk data Stored Needed crc in
  blocks ← fillBlocks df dataType blockCap (seqZ 0 Needed) 0;
  mret (df, (blocks, None)).

(** The data types of the block length table. *)
Definition knownDataType (dataType : Z) : Prop :=
  dataType = Rate12Data ∨ dataType = Rate34Data ∨ dataType = Data.

(** *** The wire image of a fragment

    What the claims say [DataBlocks] lays out, stated on lists: the stored
    bytes, zero padding up to four bytes before the end of the last block,
    and the CRC-32 least significant byte first. *)

Definition paddedRegion (data : list Z) (stored size : Z) : list Z :=
  take (Z.to_nat size)
       (take (Z.to_nat stored) data ++ replicate (Z.to_nat size) 0).

Fixpoint swapPairs (l : list Z) : list Z :=
  match l with
  | a :: b :: l => b :: a :: swapPairs l
  | l => l
  end.

Definition trailer (crc : Z) : list Z :=
  [uint8 crc; uint8 (Z.shiftr crc 8); uint8 (Z.shiftr crc 16);
   uint8 (Z.shiftr crc 24)].

Definition wireImage (data : list Z) (stored needed blockCap crc : Z)
    : list Z :=
  paddedRegion data stored (needed * blockCap - 4) ++ trailer crc.

(** Block [i] of a wire image. *)
Definition wireBlock (image : list Z) (dataType blockCap i : Z)
    : DataBlock.t :=
  let data :=
    Bytes (take (Z.to_nat blockCap) (drop (Z.to_nat (i * blockCap)) image))
          [] in
  let serial := uint8 (i `rem` 128) in
  DataBlock.mk serial (calculateCRC9 serial data dataType) false data
               blockCap.

(** The block capacities of the table: 12, 18 and 22, and two less for
    confirmed blocks. *)
Definition blockCapacity (c : Z) : Prop :=
  c = 10 ∨ c = 12 ∨ c = 16 ∨ c = 18 ∨ c = 20 ∨ c = 22.

(** The byte the fragment loop feeds for offset [j]: zero at or beyond
    [stored]. *)
Definition paddedAt (data : list Z) (stored j : Z) : Z :=
  if decide (j < stored) then byteAt data (Z.to_nat j) else 0.

(** *** What [DataBlocks] computes

    [storedLength], [fragmentCRC] and [fragmentBlocks] state the result in
    terms of the wire image. *)

Definition storedLength (df : DataFragment.t) : Z :=
  Z.min (len (DataFragment.Data df)) MaxPacketFragmentSize.

Definition fragmentCRC (df : DataFragment.t) (blockCap : Z) : Z :=
  let S := storedLength df in
  crc32end
    (foldl crc32 (DataFragment.CRC df)
       (swapPairs (paddedRegion (elems (DataFragment.Data df)) S
                                (neededBlocks S blockCap * blockCap - 4)))).

Definition fragmentBlocks (df : DataFragment.t) (dataType blockCap : Z)
    : list DataBlock.t :=
  let S := storedLength df in
  let N := neededBlocks S blockCap in
  wireBlock (wireImage (elems (DataFragment.Data df)) S N blockCap
                       (fragmentCRC df blockCap))
            dataType blockCap
  <$> seqZ 0 N.

(** ** Reassembler *)

(** Lines 189-207: the loop body for block [i] of [n]. *)
Definition combineBlock (n : Z) (f : DataFragment.t) (i : Z)
    (block : DataBlock.t) : outcome DataFragment.t :=
  let length := DataBlock.Length block in
  let append (f : DataFragment.t) : outcome DataFragment.t :=
    src ← slice (DataBlock.Data block) 0 length;
    data ← copy_at (DataFragment.Data f) (DataFragment.Stored f) src;
    mret (DataFragment.mk data (DataFragment.Stored f + length)
                          (DataFragment.Needed f) (DataFragment.CRC f)) in
  if decide (length = 0) then mret f
  else if decide (i < n - 1) then
    if decide (DataFragment.Stored f + length < len (DataFragment.Data f))
    then append f else mret f
  else
    f ← (if decide (DataFragment.Stored f + length - 4
                    < len (DataFragment.Data f))
         then append f else mret f);
    let crc := 0 in
    b ← index (DataBlock.Data block) (uint8 (length - 4));
    let crc := Z.lor crc b in
    b ← index (DataBlock.Data block) (uint8 (length - 3));
    let crc := Z.lor crc (uint32 (Z.shiftl b 8)) in
    b ← index (DataBlock.Data block) (uint8 (length - 2));
    let crc := Z.lor crc (uint32 (Z.shiftl b 16)) in
    b ← index (DataBlock.Data block) (uint8 (length - 1));
    let crc := Z.lor crc (uint32 (Z.shiftl b 24)) in
    mret (DataFragment.mk (DataFragment.Data f) (DataFragment.Stored f)
                          (DataFragment.Needed f) crc).

Fixpoint combineLoop (n : Z) (f : DataFragment.t) (i : Z)
    (blocks : list DataBlock.t) : outcome DataFragment.t :=
  match blocks with
  | [] => mret f
  | block :: blocks =>
      f ← combineBlock n f i block;
      combineLoop n f (i + 1) blocks
  end.

(** Lines 210-215: the CRC-32 of the reassembled fragment. *)
Definition combinedCRC32 (data : bytes) (stored : Z) : outcome Z :=
  forM (λ crc i,
          b ← index data (i + 1);
          let crc := crc32 crc b in
          b ← index data i;
          mret (crc32 crc b))
       (pair_offsets (stored - 4)) 0.

Definition CombineDataBlocks (blocks : list DataBlock.t)
    : outcome (option DataFragment.t * option error) :=
  if decide (blocks = [])
  then mret (None, Some NoDataBlocks)
  else
    let f := DataFragment.mk (make MaxPacketFragmentSize) 0 0 0 in
    f ← combineLoop (Z.of_nat (length blocks)) f 0 blocks;
    crc ← combinedCRC32 (DataFragment.Data f) (DataFragment.Stored f);
    let crc := crc32end crc in
    if decide (crc ≠ DataFragment.CRC f)
    then mret (None, Some (FragmentCRCError crc (DataFragment.CRC f)))
    else mret (Some f, None).

(** Lines 202-206: the CRC-32 in the last four bytes of a block, least
    significant byte first, as the loop reads it for the final block. *)
Definition storedCRC32 (block : DataBlock.t) : Z :=
  let data := elems (DataBlock.Data block) in
  let at_ k := byteAt data (Z.to_nat (DataBlock.Length block - k)) in
  Z.lor (Z.lor (Z.lor (Z.lor 0 (at_ 4)) (uint32 (Z.shiftl (at_ 3) 8)))
               (uint32 (Z.shiftl (at_ 2) 16)))
        (uint32 (Z.shiftl (at_ 1) 24)).

(** ** Block encoder *)

(** [func (db *DataBlock) Bytes]: the receiver as the call leaves it (the
    confirmed branch stores the CRC-9 it computes), and the returned
    slice. *)
Definition DataBlock_Bytes (db : DataBlock.t) (dataType : Z) (confirmed : bool)
    : outcome (DataBlock.t * bytes) :=
  let data := make (default 0 (dataBlockLengths !! dataType)) in
  if confirmed then
    let crc :=
      calculateCRC9 (DataBlock.Serial db) (DataBlock.Data db) dataType in
    let db := DataBlock.mk (DataBlock.Serial db) crc (DataBlock.OK db)
                           (DataBlock.Data db) (DataBlock.Length db) in
    data ← set_index data 0
             (Z.lor (uint8 (Z.shiftl (DataBlock.Serial db) 1))
                    (Z.land (uint8 (Z.shiftr (DataBlock.CRC db) 8)) 0x01));
    data ← set_index data 1 (uint8 (DataBlock.CRC db));
    data ← copy_at data 2 (DataBlock.Data db);
    mret (db, data)
  else
    mret (db, copy data (DataBlock.Data db)).

(** ** Properties of the external CRC-32

    [crc32] and [crc32end] are declared outside [data.go]; what the
    fragmenter does on a second call depends on two properties of
    theirs. *)

(** The checksum of a byte sequence determines the 32-bit accumulator it
    started from. *)
Definition checksumInjective : Prop :=
  ∀ (bytes : list Z) a b,
    0 ≤ a < 2 ^ 32 → 0 ≤ b < 2 ^ 32 →
    crc32end (foldl crc32 a bytes) = crc32end (foldl crc32 b bytes) → a = b.

(** A message of six bytes whose checksum, accumulated from zero, is
    zero. *)
Definition zeroChecksumMessage (m : list Z) : Prop :=
  length m = 6%nat
  ∧ Forall (λ b, 0 ≤ b < 256) m
  ∧ crc32end (foldl crc32 0 m) = 0.

End data.

(** ** Text messages

    [BuildMessageData] and [ParseMessageData] look the format up in
    [encodingMap], which [init] fills with encodings of
    [golang.org/x/text]. An encoding is used through
    [NewEncoder().Bytes] and [NewDecoder().Bytes] only, each returning
    bytes or an error; the development is parametric in the map. A Go
    string is the list of its bytes. *)

Record Encoding (E : Type) : Type := {
  encoderBytes : list Z → list Z + E;
  decoderBytes : list Z → list Z + E
}.
Arguments encoderBytes {E} _ _.
Arguments decoderBytes {E} _ _.

Inductive messageError (E : Type) : Type :=
  | TranscodingError (e : E)
  | EncodingNotSupported (ddFormat : Z)
  | DecodingNotSupported (ddFormat : Z).
Arguments TranscodingError {E} e.
Arguments EncodingNotSupported {E} ddFormat.
Arguments DecodingNotSupported {E} ddFormat.

(** [bytes.IndexByte]: the index of the first [c] in [b], or -1. *)
Fixpoint IndexByte (b : list Z) (c : Z) : Z :=
  match b with
  | [] => -1
  | x :: b =>
      if decide (x = c) then 0
      else let idx := IndexByte b c in
           if decide (idx < 0) then -1 else idx + 1
  end.

Section message.
Context {E : Type} (encodingMap : gmap Z (Encoding E)).

Definition BuildMessageData (msg : list Z) (ddFormat : Z)
    (nullTerminated : bool) : option (list Z) * option (messageError E) :=
  match encodingMap !! ddFormat with
  | Some e =>
      match encoderBytes e msg with
      | inr err => (None, Some (TranscodingError err))
      | inl data =>
          let data := if nullTerminated then data ++ [0x00; 0x00] else data in
          (Some data, None)
      end
  | None => (None, Some (EncodingNotSupported ddFormat))
  end.

Definition ParseMessageData (data : list Z) (ddFormat : Z)
    (nullTerminated : bool) : list Z * option (messageError E) :=
  match encodingMap !! ddFormat with
  | Some e =>
      match decoderBytes e data with
      | inr err => ([], Some (TranscodingError err))
      | inl str =>
          let str :=
            if nullTerminated then
              let idx := IndexByte str 0x00 in
              if decide (idx >= 0) then take (Z.to_nat idx) str else str
            else str in
          (str, None)
      end
  | None => ([], Some (DecodingNotSupported ddFormat))
  end.

End message.

(** ** A reference instance of the external declarations *)

Module Reference.

(** Modelled from the spec: the constants [Rate12Data], [Rate34Data] and
    [Data] (the data type codes of the air interface; their declaration
    is missing from the sources) name the rate types with block lengths
    12, 18 and 22. *)
Definition Rate12Data : Z := 7.
Definition Rate34Data : Z := 8.
Definition Data : Z := 6.

(** Modelled from the spec: the CRC-9 accumulator [crc9] (missing from
    the sources) is fed one bit at a time, most significant bit first,
    with the rule [newBit = ((crc >> 8) ^ inputBit) & 1;
    crc = (crc << 1) ^ (newBit ? tap : 0)], masked to nine bits. *)
Definition crc9_bit (crc : Z) (bit : bool) : Z :=
  let newBit := xorb (Z.testbit crc 8) bit in
  Z.land (Z.lxor (Z.shiftl crc 1) (if newBit then 0x59 else 0)) 0x1ff.

Definition crc9 (crc b bits : Z) : Z :=
  foldl (λ crc k, crc9_bit crc (Z.testbit b k)) crc
        (reverse (seqZ 0 bits)).

(** Modelled from the spec: [crc9end] (missing from the sources) flushes
    [bits] zero bits through the register. *)
Definition crc9end (crc bits : Z) : Z :=
  foldl (λ crc _, crc9_bit crc false) crc (seqZ 0 bits).

(** Modelled from the spec: the CRC-32 accumulator [crc32] (missing from
    the sources) is bit-serial, most significant bit first, over the
    polynomial of IEEE 802.3: the register is shifted left, the input
    bit enters at the bottom, and the polynomial is applied when a one
    leaves at the top. *)
Definition crc32_bit (crc : Z) (bit : bool) : Z :=
  let xor := Z.testbit crc 31 in
  let crc := uint32 (Z.shiftl crc 1) in
  let crc := if bit then uint32 (crc + 1) else crc in
  if xor then Z.lxor crc 0x04c11db7 else crc.

Definition crc32 (crc b : Z) : Z :=
  foldl (λ crc k, crc32_bit crc (Z.testbit b k)) crc [7; 6; 5; 4; 3; 2; 1; 0].

(** Modelled from the spec: [crc32end] (missing from the sources) is the
    finalization step, flushing the accumulator with 32 zero bits. *)
Definition crc32end (crc : Z) : Z :=
  foldl (λ crc _, crc32_bit crc false) crc (seqZ 0 32).

End Reference.

(** ** Other readings of the CRC-32

    The reference instance takes the CRC-32 as the bit-serial register of
    the CRC-9, flushed at the end. The two modules below take the other
    readings of the finalization step and of the polynomial. *)

Module Complemented.

(** Modelled from the spec: [crc32end] (missing from the sources) read as
    the finalization of IEEE 802.3, which complements the flushed
    accumulator; the accumulator [crc32] is that of [Reference]. *)
Definition crc32end (crc : Z) : Z :=
  Z.lxor (Reference.crc32end crc) 0xffffffff.

End Complemented.

Module Reflected.

(** Modelled from the spec: the CRC-32 accumulator [crc32] (missing from
    the sources) read as the reflected CRC-32 of IEEE 802.3: least
    significant bit first, the register shifted right, and the reflected
    polynomial applied when the bit leaving at the bottom differs from the
    input bit. *)
Definition crc32_bit (crc : Z) (bit : bool) : Z :=
  let xor := xorb (Z.testbit crc 0) bit in
  let crc := Z.shiftr (uint32 crc) 1 in
  if xor then Z.lxor crc 0xedb88320 else crc.

Definition crc32 (crc b : Z) : Z :=
  foldl (λ crc k, crc32_bit crc (Z.testbit b k)) crc [0; 1; 2; 3; 4; 5; 6; 7].

(** Modelled from the spec: [crc32end] (missing from the sources) read as
    the finalization of that CRC-32, the complement of the register. *)
Definition crc32end (crc : Z) : Z :=
  Z.lxor (uint32 crc) 0xffffffff.

End Reflected.

(** * Properties *)

(** ** Machine integer facts *)

Lemma uint32_range x : 0 ≤ uint32 x < 2 ^ 32.
Proof. unfold uint32. apply Z.mod_pos_bound. lia. Qed.

Lemma uint8_range x : 0 ≤ uint8 x < 2 ^ 8.
Proof. unfold uint8. apply Z.mod_pos_bound. lia. Qed.

Lemma uint8_small x : 0 ≤ x < 256 → uint8 x = x.
Proof. intros ?. unfold uint8. apply Z.mod_small. lia. Qed.

Lemma uint32_small x : 0 ≤ x < 2 ^ 32 → uint32 x = x.
Proof. intros ?. unfold uint32. apply Z.mod_small. lia. Qed.

Lemma lxor_mod_pow2 n a b :
  0 ≤ n → Z.lxor a b `mod` 2 ^ n = Z.lxor (a `mod` 2 ^ n) (b `mod` 2 ^ n).
Proof.
  intros Hn. apply Z.bits_inj'. intros k Hk.
  rewrite Z.lxor_spec, !Z.testbit_mod_pow2, Z.lxor_spec by done.
  by destruct (k <? n).
Qed.

Lemma lxor_range n a b :
  0 ≤ n → 0 ≤ a < 2 ^ n → 0 ≤ b < 2 ^ n → 0 ≤ Z.lxor a b < 2 ^ n.
Proof.
  intros Hn Ha Hb.
  rewrite <- (Z.mod_small a (2 ^ n)), <- (Z.mod_small b (2 ^ n)) by done.
  rewrite <- lxor_mod_pow2 by done. apply Z.mod_pos_bound. lia.
Qed.

Lemma foldl_range {X} (f : Z → X → Z) (lo hi : Z) (xs : list X) (c : Z) :
  (∀ c x, lo ≤ f c x < hi) → xs ≠ [] → lo ≤ foldl f c xs < hi.
Proof.
  intros Hf. revert c. induction xs as [|x xs IH]; intros c Hne; [done|].
  simpl. destruct xs as [|y xs]; [apply Hf|]. by apply IH.
Qed.

(** ** The reference instance is an instance *)

Lemma reference_crc32_bit_range crc bit :
  0 ≤ Reference.crc32_bit crc bit < 2 ^ 32.
Proof.
  unfold Reference.crc32_bit.
  assert (0 ≤ (if bit then uint32 (uint32 (Z.shiftl crc 1) + 1)
               else uint32 (Z.shiftl crc 1)) < 2 ^ 32)
    by (destruct bit; apply uint32_range).
  destruct (Z.testbit crc 31); [|done].
  apply lxor_range; [lia|done|lia].
Qed.

Lemma reference_crc32end_range crc : 0 ≤ Reference.crc32end crc < 2 ^ 32.
Proof.
  unfold Reference.crc32end. apply foldl_range; [|done].
  intros. apply reference_crc32_bit_range.
Qed.

Lemma reference_dataTypes_distinct :
  Reference.Rate12Data ≠ Reference.Rate34Data
  ∧ Reference.Rate12Data ≠ Reference.Data
  ∧ Reference.Rate34Data ≠ Reference.Data.
Proof. done. Qed.

#[global] Instance reference : Externals := {|
  Rate12Data := Reference.Rate12Data;
  Rate34Data := Reference.Rate34Data;
  Data := Reference.Data;
  crc9 := Reference.crc9;
  crc9end := Reference.crc9end;
  crc32 := Reference.crc32;
  crc32end := Reference.crc32end;
  dataTypes_distinct := reference_dataTypes_distinct;
  crc32end_uint32 := reference_crc32end_range
|}.

(** The instances with the other readings of the CRC-32. *)
Lemma complemented_crc32end_range crc :
  0 ≤ Complemented.crc32end crc < 2 ^ 32.
Proof.
  unfold Complemented.crc32end.
  apply lxor_range; [lia|apply reference_crc32end_range|lia].
Qed.

Definition complemented : Externals := {|
  Rate12Data := Reference.Rate12Data;
  Rate34Data := Reference.Rate34Data;
  Data := Reference.Data;
  crc9 := Reference.crc9;
  crc9end := Reference.crc9end;
  crc32 := Reference.crc32;
  crc32end := Complemented.crc32end;
  dataTypes_distinct := reference_dataTypes_distinct;
  crc32end_uint32 := complemented_crc32end_range
|}.

Lemma reflected_crc32end_range crc : 0 ≤ Reflected.crc32end crc < 2 ^ 32.
Proof.
  unfold Reflected.crc32end.
  apply lxor_range; [lia|apply uint32_range|lia].
Qed.

Definition reflected : Externals := {|
  Rate12Data := Reference.Rate12Data;
  Rate34Data := Reference.Rate34Data;
  Data := Reference.Data;
  crc9 := Reference.crc9;
  crc9end := Reference.crc9end;
  crc32 := Reflected.crc32;
  crc32end := Reflected.crc32end;
  dataTypes_distinct := reference_dataTypes_distinct;
  crc32end_uint32 := reflected_crc32end_range
|}.

(** ** Arrays read through [byteAt] *)

Lemma byteAt_ge l j : (length l ≤ j)%nat → byteAt l j = 0.
Proof. intros ?. unfold byteAt. by rewrite lookup_ge_None_2. Qed.

Lemma byteAt_app l1 l2 j :
  byteAt (l1 ++ l2) j =
  if decide (j < length l1)%nat then byteAt l1 j
  else byteAt l2 (j - length l1).
Proof.
  unfold byteAt. case_decide.
  - by rewrite lookup_app_l.
  - by rewrite lookup_app_r by lia.
Qed.

Lemma byteAt_take n l j :
  byteAt (take n l) j = if decide (j < n)%nat then byteAt l j else 0.
Proof.
  unfold byteAt. case_decide.
  - by rewrite lookup_take_lt.
  - by rewrite lookup_take_ge by lia.
Qed.

Lemma byteAt_drop n l j : byteAt (drop n l) j = byteAt l (n + j).
Proof. unfold byteAt. by rewrite lookup_drop. Qed.

Lemma byteAt_replicate n j : byteAt (replicate n 0) j = 0.
Proof.
  unfold byteAt. destruct (replicate n 0 !! j) as [x|] eqn:E; [|done].
  by apply lookup_replicate in E as [-> _].
Qed.

Lemma byteAt_insert i v l j :
  byteAt (<[i:=v]> l) j =
  if decide (j = i ∧ j < length l)%nat then v else byteAt l j.
Proof.
  unfold byteAt. case_decide as Hd.
  - destruct Hd as [-> ?]. by rewrite list_lookup_insert_eq.
  - destruct (decide (j = i)) as [->|].
    + by rewrite list_insert_ge by lia.
    + by rewrite list_lookup_insert_ne.
Qed.

Lemma byteAt_inserts i k l j :
  byteAt (list_inserts i k l) j =
  if decide (i ≤ j < i + length k ∧ j < length l)%nat then byteAt k (j - i)
  else byteAt l j.
Proof.
  unfold byteAt. case_decide as Hd.
  - by rewrite list_lookup_inserts by lia.
  - destruct (decide (j < length l)%nat).
    + destruct (decide (j < i)%nat).
      * by rewrite list_lookup_inserts_lt.
      * by rewrite list_lookup_inserts_ge by lia.
    + rewrite !lookup_ge_None_2; [done|lia|rewrite length_inserts; lia].
Qed.

Lemma list_eq_byteAt l1 l2 :
  length l1 = length l2 →
  (∀ j, (j < length l1)%nat → byteAt l1 j = byteAt l2 j) →
  l1 = l2.
Proof.
  intros Hlen Hat. apply list_eq. intros j.
  destruct (decide (j < length l1)%nat) as [Hj|Hj].
  - specialize (Hat j Hj). unfold byteAt in Hat.
    destruct (lookup_lt_is_Some_2 l1 j Hj) as [x Hx].
    destruct (lookup_lt_is_Some_2 l2 j ltac:(lia)) as [y Hy].
    rewrite Hx, Hy in *. simpl in Hat. by subst.
  - by rewrite !lookup_ge_None_2 by lia.
Qed.

Ltac bytes_lengths :=
  repeat first
    [ rewrite length_app in * | rewrite length_take in *
    | rewrite length_drop in * | rewrite length_replicate in *
    | rewrite length_insert in * | rewrite length_inserts in * ].

Ltac bytes_at :=
  repeat first
    [ rewrite byteAt_app | rewrite byteAt_take | rewrite byteAt_drop
    | rewrite byteAt_replicate | rewrite byteAt_insert
    | rewrite byteAt_inserts ].

(** Equality of two arrays, element by element. *)
Ltac bytes_eq :=
  apply list_eq_byteAt;
  [ bytes_lengths; simpl; try lia
  | let j := fresh "j" in let Hj := fresh "Hj" in
    intros j Hj; bytes_at; bytes_lengths; simpl in *;
    repeat case_decide; try lia; try (f_equal; lia) ].

Ltac bytes_cases :=
  repeat (case_decide; try lia); try done;
  try (apply (f_equal (byteAt _)); lia).

(** ** Chunks of a zero-padded array

    [l ++ sp] is an array of which [s] elements are stored, [a] the
    offset of a chunk of [c] bytes, [n] the size of the padded region and
    [tr] the trailer that follows it. *)

Lemma chunk_copy (l sp : list Z) (s a c : nat) :
  (s ≤ length l)%nat →
  list_inserts 0 (take (min (a + c) s - min a s) (drop (min a s) (l ++ sp)))
               (replicate c 0)
  = take c (drop a (take s l ++ replicate (a + c) 0)).
Proof.
  intros Hs. apply list_eq_byteAt.
  - bytes_lengths. lia.
  - intros j Hj. bytes_at. bytes_lengths. bytes_cases.
Qed.

Lemma chunk_inner (l tr : list Z) (s n a c : nat) :
  (s ≤ n)%nat → (a + c ≤ n)%nat →
  take c (drop a (take s l ++ replicate (a + c) 0))
  = take c (drop a (take n (take s l ++ replicate n 0) ++ tr)).
Proof.
  intros Hn Ha. apply list_eq_byteAt.
  - bytes_lengths. lia.
  - intros j Hj. bytes_at. bytes_lengths. bytes_cases.
Qed.

Lemma chunk_last (l tr : list Z) (s n a c : nat) :
  (s ≤ n)%nat → (a + c = n + 4)%nat → (4 ≤ c)%nat → length tr = 4%nat →
  take (c - 4) (take c (drop a (take s l ++ replicate (a + c) 0))) ++ tr
  = take c (drop a (take n (take s l ++ replicate n 0) ++ tr)).
Proof.
  intros Hn Ha Hc Htr. apply list_eq_byteAt.
  - bytes_lengths. lia.
  - intros j Hj. bytes_at. bytes_lengths. bytes_cases.
Qed.

Lemma insert_trailer (x : list Z) (c : nat) b0 b1 b2 b3 :
  length x = c → (4 ≤ c)%nat →
  <[(c - 4)%nat := b0]> (<[(c - 3)%nat := b1]> (<[(c - 2)%nat := b2]>
    (<[(c - 1)%nat := b3]> x)))
  = take (c - 4) x ++ [b0; b1; b2; b3].
Proof.
  intros Hx Hc. apply list_eq_byteAt.
  - bytes_lengths. simpl. lia.
  - intros j Hj. bytes_at. bytes_lengths. rewrite Hx in *.
    destruct (decide (j < c - 4)%nat).
    + bytes_cases.
    + assert (j = c - 4 ∨ j = c - 3 ∨ j = c - 2 ∨ j = c - 1)%nat
        as [-> | [-> | [-> | ->]]] by lia.
      * replace (c - 4 - (c - 4) `min` c)%nat with 0%nat by lia.
        bytes_cases.
      * replace (c - 3 - (c - 4) `min` c)%nat with 1%nat by lia.
        bytes_cases.
      * replace (c - 2 - (c - 4) `min` c)%nat with 2%nat by lia.
        bytes_cases.
      * replace (c - 1 - (c - 4) `min` c)%nat with 3%nat by lia.
        bytes_cases.
Qed.

(** ** The trailer bytes of a CRC-32 *)

Lemma testbit_uint8 x n :
  0 ≤ n → Z.testbit (uint8 x) n = (n <? 8) && Z.testbit x n.
Proof. intros. unfold uint8. by rewrite Z.testbit_mod_pow2. Qed.

Lemma testbit_byte_shifted x k n :
  0 ≤ k → 0 ≤ n → k + 8 ≤ 32 →
  Z.testbit (uint32 (Z.shiftl (uint8 (Z.shiftr x k)) k)) n
  = (k <=? n) && (n <? k + 8) && Z.testbit x n.
Proof.
  intros Hk Hn Hk8. unfold uint32. rewrite Z.testbit_mod_pow2 by lia.
  rewrite Z.shiftl_spec by lia.
  destruct (Z.leb_spec k n).
  - rewrite testbit_uint8, Z.shiftr_spec by lia.
    replace (n - k + k) with n by lia.
    destruct (Z.ltb_spec n 32), (Z.ltb_spec (n - k) 8), (Z.ltb_spec n (k + 8));
      simpl; try done; lia.
  - rewrite Z.testbit_neg_r by lia. by rewrite andb_false_r.
Qed.

(** Reading the four trailer bytes back, as [CombineDataBlocks] does,
    gives the CRC-32 they were written from. *)
Lemma trailer_uint32 crc :
  0 ≤ crc < 2 ^ 32 →
  Z.lor (Z.lor (Z.lor (Z.lor 0 (uint8 crc))
                      (uint32 (Z.shiftl (uint8 (Z.shiftr crc 8)) 8)))
               (uint32 (Z.shiftl (uint8 (Z.shiftr crc 16)) 16)))
        (uint32 (Z.shiftl (uint8 (Z.shiftr crc 24)) 24))
  = crc.
Proof.
  intros Hcrc. apply Z.bits_inj'. intros n Hn.
  rewrite !Z.lor_spec, Z.bits_0, testbit_uint8, !testbit_byte_shifted by lia.
  change (8 + 8) with 16. change (16 + 8) with 24. change (24 + 8) with 32.
  destruct (Z.ltb_spec n 8), (Z.leb_spec 8 n), (Z.ltb_spec n 16),
    (Z.leb_spec 16 n), (Z.ltb_spec n 24), (Z.leb_spec 24 n),
    (Z.ltb_spec n 32); simpl; try lia;
    rewrite ?orb_false_r; try done.
  symmetry. rewrite <- (Z.mod_small crc (2 ^ 32)) by done.
  apply Z.mod_pow2_bits_high. lia.
Qed.

Section properties.
Context `{Externals}.

(** ** The tables *)

Lemma dataBlockLengths_Rate12Data : dataBlockLengths !! Rate12Data = Some 12.
Proof. unfold dataBlockLengths. by simplify_map_eq. Qed.

Lemma dataBlockLengths_Rate34Data : dataBlockLengths !! Rate34Data = Some 18.
Proof.
  destruct dataTypes_distinct as (? & ? & ?).
  unfold dataBlockLengths. by simplify_map_eq.
Qed.

Lemma dataBlockLengths_Data : dataBlockLengths !! Data = Some 22.
Proof.
  destruct dataTypes_distinct as (? & ? & ?).
  unfold dataBlockLengths. by simplify_map_eq.
Qed.

Lemma dataBlockLengths_unknown dataType :
  ¬ knownDataType dataType → dataBlockLengths !! dataType = None.
Proof.
  unfold knownDataType, dataBlockLengths. intros Hk.
  rewrite !lookup_insert_ne, lookup_singleton_ne; [done|..];
    intros E; apply Hk; rewrite <- E; auto.
Qed.

Lemma userDataLength_unknown dataType confirmed :
  ¬ knownDataType dataType → userDataLength dataType confirmed = 0.
Proof.
  intros Hk. unfold userDataLength.
  by rewrite dataBlockLengths_unknown.
Qed.

Lemma userDataLength_known dataType confirmed :
  knownDataType dataType →
  let size := userDataLength dataType false in
  (size = 12 ∨ size = 18 ∨ size = 22)
  ∧ userDataLength dataType confirmed = if confirmed then size - 2 else size.
Proof.
  unfold userDataLength.
  intros [-> | [-> | ->]];
    rewrite ?dataBlockLengths_Rate12Data, ?dataBlockLengths_Rate34Data,
      ?dataBlockLengths_Data;
    destruct confirmed; simpl; auto.
Qed.

Lemma userDataLength_blockCapacity dataType confirmed :
  knownDataType dataType → blockCapacity (userDataLength dataType confirmed).
Proof.
  intros Hk. destruct (userDataLength_known _ confirmed Hk) as [Hs ->].
  unfold blockCapacity. destruct confirmed; lia.
Qed.

Lemma blockCapacity_bounds c : blockCapacity c → 10 ≤ c ≤ 22.
Proof. unfold blockCapacity. lia. Qed.

(** ** The number of blocks *)

Lemma neededBlocks_ceil stored c :
  0 ≤ stored → 0 < c →
  let n0 := (stored + c - 1) `quot` c in
  (n0 - 1) * c < stored ≤ n0 * c.
Proof.
  intros Hs Hc n0. subst n0. rewrite Z.quot_div_nonneg by lia.
  pose proof (Z.div_mod (stored + c - 1) c ltac:(lia)).
  pose proof (Z.mod_pos_bound (stored + c - 1) c ltac:(lia)).
  nia.
Qed.

Lemma neededBlocks_room stored c :
  0 ≤ stored → 4 ≤ c → 4 ≤ neededBlocks stored c * c - stored.
Proof.
  intros Hs Hc. unfold neededBlocks.
  pose proof (neededBlocks_ceil stored c Hs ltac:(lia)) as Hn. simpl in Hn.
  case_decide; nia.
Qed.

Lemma neededBlocks_tight stored c :
  0 ≤ stored → 4 ≤ c → (neededBlocks stored c - 1) * c < stored + 4.
Proof.
  intros Hs Hc. unfold neededBlocks.
  pose proof (neededBlocks_ceil stored c Hs ltac:(lia)) as Hn. simpl in Hn.
  case_decide; nia.
Qed.

Lemma neededBlocks_pos stored c :
  0 ≤ stored → 4 ≤ c → 1 ≤ neededBlocks stored c.
Proof.
  intros Hs Hc. pose proof (neededBlocks_room stored c Hs Hc). nia.
Qed.

(** ** Slices *)

Lemma index_Normal s i :
  0 ≤ i < len s → index s i = Normal (byteAt (elems s) (Z.to_nat i)).
Proof. intros ?. unfold index. by rewrite decide_True. Qed.

Lemma index_Panics s i :
  ¬ 0 ≤ i < len s → index s i = Panics (IndexOutOfRange i (len s)).
Proof. intros ?. unfold index. by rewrite decide_False. Qed.

Lemma slice_Panics s lo hi :
  ¬ (0 ≤ lo ≤ hi ∧ hi ≤ cap s) → slice s lo hi = Panics SliceBoundsOutOfRange.
Proof. intros ?. unfold slice. by rewrite decide_False. Qed.

Lemma len_make n : 0 ≤ n → len (make n) = n.
Proof. intros ?. unfold len, make. simpl. rewrite length_replicate. lia. Qed.

(** ** The swapped-pair CRC-32 *)

Lemma fragmentCRC32_offsets data stored crc (offsets : list Z) :
  0 ≤ stored ≤ len data → Forall (λ i, 0 ≤ i) offsets →
  forM (λ crc i,
          crc ← (if decide (i + 1 < stored)
                 then b ← index data (i + 1); mret (crc32 crc b)
                 else mret (crc32 crc 0));
          if decide (i < stored)
          then b ← index data i; mret (crc32 crc b)
          else mret (crc32 crc 0))
       offsets crc
  = Normal (foldl (λ crc i,
                     crc32 (crc32 crc (paddedAt (elems data) stored (i + 1)))
                           (paddedAt (elems data) stored i))
                  crc offsets).
Proof.
  intros Hs Hoff. revert crc.
  induction Hoff as [|i offsets Hi _ IH]; intros crc; [done|].
  simpl. unfold paddedAt.
  destruct (decide (i + 1 < stored)), (decide (i < stored));
    rewrite ?index_Normal by lia; simpl; apply IH.
Qed.

Lemma pair_offsets_nonneg bound : Forall (λ i, 0 ≤ i) (pair_offsets bound).
Proof.
  unfold pair_offsets. apply Forall_fmap, Forall_forall.
  intros k Hk. apply elem_of_seqZ in Hk. simpl. lia.
Qed.

Lemma fragmentCRC32_Normal data stored bound crc :
  0 ≤ stored ≤ len data →
  fragmentCRC32 data stored bound crc
  = Normal (foldl (λ crc i,
                     crc32 (crc32 crc (paddedAt (elems data) stored (i + 1)))
                           (paddedAt (elems data) stored i))
                  crc (pair_offsets bound)).
Proof.
  intros Hs. apply fragmentCRC32_offsets; [done|apply pair_offsets_nonneg].
Qed.

Lemma foldl_swapPairs (g : Z → Z) (k : nat) : ∀ m crc,
  foldl (λ crc i, crc32 (crc32 crc (g (i + 1))) (g i)) crc
        ((λ k, 2 * k) <$> seqZ m (Z.of_nat k))
  = foldl crc32 crc (swapPairs (g <$> seqZ (2 * m) (2 * Z.of_nat k))).
Proof.
  induction k as [|k IH]; intros m crc; [done|].
  rewrite (seqZ_cons m) by lia.
  rewrite (seqZ_cons (2 * m)) by lia.
  rewrite (seqZ_cons (Z.succ (2 * m))) by lia.
  replace (Z.pred (Z.of_nat (S k))) with (Z.of_nat k) by lia.
  replace (Z.pred (Z.pred (2 * Z.of_nat (S k)))) with (2 * Z.of_nat k) by lia.
  replace (Z.succ (Z.succ (2 * m))) with (2 * Z.succ m) by lia.
  simpl. rewrite IH. by replace (Z.succ (2 * m)) with (2 * m + 1) by lia.
Qed.

Lemma byteAt_fmap_seqZ (g : Z → Z) n j :
  byteAt (g <$> seqZ 0 n) j =
  if decide (Z.of_nat j < n) then g (Z.of_nat j) else 0.
Proof.
  unfold byteAt. rewrite list_lookup_fmap. case_decide.
  - by rewrite lookup_seqZ_lt.
  - by rewrite lookup_seqZ_ge by lia.
Qed.

Lemma paddedRegion_seqZ data stored size :
  0 ≤ stored ≤ Z.of_nat (length data) → 0 ≤ size →
  paddedAt data stored <$> seqZ 0 size = paddedRegion data stored size.
Proof.
  intros Hs Hn. unfold paddedRegion. apply list_eq_byteAt.
  - rewrite length_fmap, length_seqZ. bytes_lengths. lia.
  - intros j Hj. rewrite length_fmap, length_seqZ in Hj.
    rewrite byteAt_fmap_seqZ. unfold paddedAt. bytes_at. bytes_lengths.
    repeat case_decide; try lia. f_equal. lia.
Qed.

(** The accumulator the fragment loop leaves is the fold of [crc32] over
    the padded region with each pair of bytes swapped. *)
Lemma fragmentCRC32_swapPairs data stored size crc :
  0 ≤ stored ≤ len data → 0 ≤ size → size `mod` 2 = 0 →
  fragmentCRC32 data stored size crc
  = Normal (foldl crc32 crc
                  (swapPairs (paddedRegion (elems data) stored size))).
Proof.
  intros Hs Hn Heven. rewrite fragmentCRC32_Normal by done.
  unfold pair_offsets. f_equal.
  assert (size = 2 * (size `div` 2)) as Hsize
    by (pose proof (Z.div_mod size 2); lia).
  assert ((size + 1) `div` 2 = size `div` 2) as ->
    by (symmetry; apply Z.div_unique with 1; lia).
  replace (size `div` 2) with (Z.of_nat (Z.to_nat (size `div` 2))) at 1
    by lia.
  rewrite foldl_swapPairs. rewrite Z2Nat.id by lia.
  rewrite <- Hsize. simpl. by rewrite paddedRegion_seqZ.
Qed.

(** ** The blocks of a fragment *)

Lemma set_index_Normal s i v :
  0 ≤ i < len s →
  set_index s i v = Normal (Bytes (<[Z.to_nat i := v]> (elems s)) (spare s)).
Proof. intros ?. unfold set_index. by rewrite decide_True. Qed.

Lemma byteAt_trailer crc k :
  byteAt (trailer crc) k =
  if decide (k = 0)%nat then uint8 crc
  else if decide (k = 1)%nat then uint8 (Z.shiftr crc 8)
  else if decide (k = 2)%nat then uint8 (Z.shiftr crc 16)
  else if decide (k = 3)%nat then uint8 (Z.shiftr crc 24)
  else 0.
Proof. by do 4 (destruct k as [|k]; [done|]). Qed.

Lemma length_paddedRegion data stored size :
  0 ≤ size → length (paddedRegion data stored size) = Z.to_nat size.
Proof. intros ?. unfold paddedRegion. bytes_lengths. lia. Qed.

Lemma length_wireImage data stored needed c crc :
  4 ≤ needed * c →
  length (wireImage data stored needed c crc) = Z.to_nat (needed * c).
Proof.
  intros ?. unfold wireImage.
  rewrite length_app, length_paddedRegion by lia. simpl. lia.
Qed.

Lemma dataBlock_wireBlock df dataType c i :
  let data := DataFragment.Data df in
  let S := DataFragment.Stored df in
  let N := DataFragment.Needed df in
  blockCapacity c → 0 ≤ S ≤ len data → 4 ≤ N * c - S → 0 ≤ i < N →
  dataBlock df dataType c i (Z.min (i * c) S)
  = Normal (wireBlock (wireImage (elems data) S N c (DataFragment.CRC df))
                      dataType c i,
            Z.min ((i + 1) * c) S).
Proof.
  intros data S N Hc HS Hroom Hi.
  pose proof (blockCapacity_bounds c Hc) as Hcb.
  assert (i * c + c ≤ N * c) as Hic by nia.
  assert (0 ≤ i * c) as Hic0 by nia.
  unfold dataBlock. fold data S N.
  rewrite !(uint8_small c) by lia.
  set (stored := Z.min (i * c) S).
  set (store := if decide (S - stored < c) then S - stored else c).
  assert (0 ≤ store ≤ c ∧ stored + store = Z.min ((i + 1) * c) S) as [Hst Hnext]
    by (subst store stored; case_decide; lia).
  unfold slice. rewrite decide_True
    by (unfold cap, len in *; rewrite length_app; subst stored; lia).
  simpl. unfold wireBlock, wireImage, paddedRegion, copy, make. simpl.
  unfold len in HS. rewrite Hnext.
  replace (Z.to_nat (Z.min ((i + 1) * c) S - stored))
    with (min (Z.to_nat (i * c) + Z.to_nat c) (Z.to_nat S)
          - min (Z.to_nat (i * c)) (Z.to_nat S))%nat
    by (subst stored; lia).
  replace (Z.to_nat stored)
    with (min (Z.to_nat (i * c)) (Z.to_nat S)) by (subst stored; lia).
  rewrite chunk_copy by lia.
  destruct (decide (i = N - 1)) as [Hlast|Hlast].
  - assert (i * c = N * c - c) as Hic' by nia.
    rewrite (uint8_small (c - 1)), (uint8_small (c - 2)),
      (uint8_small (c - 3)), (uint8_small (c - 4)) by lia.
    do 4 (rewrite set_index_Normal
            by (unfold len; simpl; bytes_lengths; lia); simpl).
    replace (Z.to_nat (c - 1)) with (Z.to_nat c - 1)%nat by lia.
    replace (Z.to_nat (c - 2)) with (Z.to_nat c - 2)%nat by lia.
    replace (Z.to_nat (c - 3)) with (Z.to_nat c - 3)%nat by lia.
    replace (Z.to_nat (c - 4)) with (Z.to_nat c - 4)%nat by lia.
    rewrite insert_trailer by (bytes_lengths; lia).
    rewrite (chunk_last _ _ _ (Z.to_nat (N * c - 4))) by (done || lia).
    done.
  - assert (i * c + c ≤ N * c - c) as Hic' by nia.
    simpl.
    rewrite (chunk_inner _ (trailer (DataFragment.CRC df)) _
                         (Z.to_nat (N * c - 4))) by lia.
    done.
Qed.

Lemma fillBlocks_wireBlocks df dataType c (k : nat) : ∀ i,
  let data := DataFragment.Data df in
  let stored := DataFragment.Stored df in
  let needed := DataFragment.Needed df in
  blockCapacity c → 0 ≤ stored ≤ len data → 4 ≤ needed * c - stored →
  0 ≤ i → i + Z.of_nat k = needed →
  fillBlocks df dataType c (seqZ i (Z.of_nat k)) (Z.min (i * c) stored)
  = Normal (wireBlock (wireImage (elems data) stored needed c
                                 (DataFragment.CRC df))
                      dataType c
            <$> seqZ i (Z.of_nat k)).
Proof.
  induction k as [|k IH]; intros i data stored needed Hc HS Hroom Hi Hk;
    [done|].
  rewrite seqZ_cons by lia. cbn [fillBlocks].
  rewrite dataBlock_wireBlock by (done || lia). cbn [mbind outcome_bind].
  replace (Z.pred (Z.of_nat (S k))) with (Z.of_nat k) by lia.
  replace ((i + 1) * c) with (Z.succ i * c) by lia.
  rewrite IH by (done || lia). done.
Qed.

Lemma blockCapacity_even c n : blockCapacity c → (n * c - 4) `mod` 2 = 0.
Proof.
  intros [-> | [-> | [-> | [-> | [-> | ->]]]]].
  - replace (n * 10 - 4) with ((5 * n - 2) * 2) by lia. apply Z.mod_mul. lia.
  - replace (n * 12 - 4) with ((6 * n - 2) * 2) by lia. apply Z.mod_mul. lia.
  - replace (n * 16 - 4) with ((8 * n - 2) * 2) by lia. apply Z.mod_mul. lia.
  - replace (n * 18 - 4) with ((9 * n - 2) * 2) by lia. apply Z.mod_mul. lia.
  - replace (n * 20 - 4) with ((10 * n - 2) * 2) by lia. apply Z.mod_mul. lia.
  - replace (n * 22 - 4) with ((11 * n - 2) * 2) by lia. apply Z.mod_mul. lia.
Qed.

Lemma DataBlocks_Normal df dataType confirm :
  knownDataType dataType →
  let c := userDataLength dataType confirm in
  DataBlocks df dataType confirm
  = Normal (DataFragment.mk (DataFragment.Data df) (storedLength df)
                            (neededBlocks (storedLength df) c)
                            (fragmentCRC df c),
            (fragmentBlocks df dataType c, None)).
Proof.
  intros Hk c.
  pose proof (userDataLength_blockCapacity dataType confirm Hk) as Hc.
  fold c in Hc. pose proof (blockCapacity_bounds c Hc) as Hcb.
  unfold DataBlocks. fold c.
  assert ((if decide (len (DataFragment.Data df) > MaxPacketFragmentSize)
           then MaxPacketFragmentSize else len (DataFragment.Data df))
          = storedLength df) as ->
    by (unfold storedLength, MaxPacketFragmentSize; case_decide; lia).
  rewrite decide_False by lia.
  unfold fragmentBlocks, fragmentCRC.
  set (stored := storedLength df). set (needed := neededBlocks stored c).
  assert (0 ≤ stored ≤ len (DataFragment.Data df)) as HS
    by (subst stored; unfold storedLength, MaxPacketFragmentSize, len; lia).
  pose proof (neededBlocks_room stored c ltac:(lia) ltac:(lia)) as Hroom.
  pose proof (neededBlocks_pos stored c ltac:(lia) ltac:(lia)) as Hpos.
  fold needed in Hroom, Hpos.
  rewrite fragmentCRC32_swapPairs
    by (done || lia || by apply blockCapacity_even).
  cbn [mbind outcome_bind].
  set (crc := crc32end _).
  pose proof (fillBlocks_wireBlocks
                (DataFragment.mk (DataFragment.Data df) stored needed crc)
                dataType c (Z.to_nat needed) 0) as Hfill.
  cbn [DataFragment.Data DataFragment.Stored DataFragment.Needed
       DataFragment.CRC] in Hfill.
  rewrite Z2Nat.id in Hfill by lia.
  replace (Z.min (0 * c) stored) with 0 in Hfill by lia.
  rewrite Hfill by (done || lia). done.
Qed.

(** ** Reassembly of the blocks of a wire image *)

Lemma slice_whole x c :
  length x = Z.to_nat c → 0 ≤ c →
  slice (Bytes x []) 0 c = Normal (Bytes x []).
Proof.
  intros Hx Hc. unfold slice. rewrite decide_True
    by (unfold cap; simpl; rewrite length_app; simpl; lia).
  simpl. rewrite app_nil_r, Z.sub_0_r. change (Z.to_nat 0) with 0%nat.
  rewrite drop_0. by rewrite take_ge, drop_ge by lia.
Qed.

Lemma copy_at_Normal dst off src :
  0 ≤ off ≤ len dst →
  copy_at dst off src
  = Normal (Bytes (list_inserts (Z.to_nat off) (elems src) (elems dst))
                  (spare dst)).
Proof. intros ?. unfold copy_at. by rewrite decide_True. Qed.

Lemma length_wireChunk (image : list Z) c i needed :
  length image = Z.to_nat (needed * c) → 0 ≤ i → 0 ≤ c →
  i * c + c ≤ needed * c →
  length (take (Z.to_nat c) (drop (Z.to_nat (i * c)) image)) = Z.to_nat c.
Proof. intros Himg Hi Hc Hic. bytes_lengths. nia. Qed.

Lemma byteAt_wireChunk_trailer data stored needed c crc (k : nat) :
  4 ≤ c → 4 ≤ needed * c → 0 ≤ (needed - 1) * c → (k < 4)%nat →
  byteAt (take (Z.to_nat c)
               (drop (Z.to_nat ((needed - 1) * c))
                     (wireImage data stored needed c crc)))
         (Z.to_nat (c - 4) + k)
  = byteAt (trailer crc) k.
Proof.
  intros Hc Hn Hn1 Hk. unfold wireImage.
  rewrite byteAt_take, byteAt_drop, byteAt_app, length_paddedRegion by lia.
  rewrite decide_True by lia. rewrite decide_False by lia.
  f_equal. lia.
Qed.

Lemma combineLoop_wireBlocks data stored needed c crc dataType (k : nat) :
  ∀ i f,
  let image := wireImage data stored needed c crc in
  blockCapacity c → 0 ≤ crc < 2 ^ 32 →
  4 ≤ needed * c → needed * c - 4 < len (DataFragment.Data f) →
  0 ≤ i → (1 ≤ k)%nat → i + Z.of_nat k = needed →
  DataFragment.Stored f = i * c →
  combineLoop needed f i (wireBlock image dataType c <$> seqZ i (Z.of_nat k))
  = Normal (DataFragment.mk
              (Bytes (list_inserts (Z.to_nat (i * c))
                                   (drop (Z.to_nat (i * c)) image)
                                   (elems (DataFragment.Data f)))
                     (spare (DataFragment.Data f)))
              (needed * c) (DataFragment.Needed f) crc).
Proof.
  induction k as [|k IH]; intros i f image Hc Hcrc Hn4 Hfit Hi Hk Hik Hst;
    [lia|].
  pose proof (blockCapacity_bounds c Hc) as Hcb.
  assert (length image = Z.to_nat (needed * c)) as Himg
    by (subst image; by rewrite length_wireImage).
  assert (i * c + c ≤ needed * c) as Hic by nia.
  assert (0 ≤ i * c) as Hic0 by nia.
  rewrite seqZ_cons by lia. cbn [fmap list_fmap combineLoop].
  unfold combineBlock at 1. cbn [wireBlock DataBlock.Length DataBlock.Data].
  rewrite decide_False by lia.
  rewrite slice_whole
    by first [lia | apply (length_wireChunk image c i needed); lia].
  cbn [mbind outcome_bind]. rewrite Hst.
  destruct k as [|k].
  - (* the final block *)
    assert (i = needed - 1) as -> by lia.
    rewrite decide_False by lia. rewrite decide_True by lia.
    rewrite copy_at_Normal by lia.
    cbn [mbind outcome_bind mret outcome_ret elems spare DataFragment.Data
         DataFragment.Stored DataFragment.Needed DataFragment.CRC].
    rewrite (uint8_small (c - 1)), (uint8_small (c - 2)),
      (uint8_small (c - 3)), (uint8_small (c - 4)) by lia.
    assert (len (Bytes (take (Z.to_nat c)
                          (drop (Z.to_nat ((needed - 1) * c)) image)) []) = c)
      as Hlen
      by (unfold len; cbn [elems];
          rewrite (length_wireChunk image c (needed - 1) needed) by lia; lia).
    rewrite !index_Normal by lia. cbn [mbind outcome_bind elems].
    replace (Z.to_nat (c - 4)) with (Z.to_nat (c - 4) + 0)%nat by lia.
    replace (Z.to_nat (c - 3)) with (Z.to_nat (c - 4) + 1)%nat by lia.
    replace (Z.to_nat (c - 2)) with (Z.to_nat (c - 4) + 2)%nat by lia.
    replace (Z.to_nat (c - 1)) with (Z.to_nat (c - 4) + 3)%nat by lia.
    subst image. rewrite !byteAt_wireChunk_trailer by lia.
    cbn [trailer byteAt lookup list_lookup default from_option id].
    rewrite trailer_uint32 by done. cbn [seqZ].
    rewrite seqZ_nil by lia. cbn [fmap list_fmap combineLoop].
    cbn [mbind outcome_bind mret outcome_ret].
    rewrite (take_ge (drop _ _))
      by (rewrite length_drop, length_wireImage by lia; lia).
    f_equal. f_equal. lia.
  - (* a block before the final one *)
    assert (i * c + c ≤ needed * c - c) as Hic' by nia.
    rewrite decide_True by lia. rewrite decide_True by lia.
    rewrite copy_at_Normal by lia.
    cbn [mbind outcome_bind mret outcome_ret elems spare].
    replace (Z.pred (Z.of_nat (S (S k)))) with (Z.of_nat (S k)) by lia.
    rewrite IH; cbn [DataFragment.Data DataFragment.Stored DataFragment.Needed
                     DataFragment.CRC elems spare];
      [| done | done | done
       | unfold len in *; cbn [elems]; rewrite length_inserts; lia
       | lia | lia | lia | lia ].
    do 2 f_equal. f_equal.
    fold image.
    rewrite <- (take_drop (Z.to_nat c) (drop (Z.to_nat (i * c)) image)) at 2.
    rewrite list_inserts_app_l, drop_drop.
    rewrite (length_wireChunk image c i needed) by lia.
    replace (Z.to_nat (Z.succ i * c)) with (Z.to_nat c + Z.to_nat (i * c))%nat
      by lia.
    replace (Z.to_nat (i * c) + Z.to_nat c)%nat
      with (Z.to_nat c + Z.to_nat (i * c))%nat by lia.
    done.
Qed.

Lemma combinedCRC32_offsets data crc (offsets : list Z) :
  Forall (λ i, 0 ≤ i ∧ i + 1 < len data) offsets →
  forM (λ crc i,
          b ← index data (i + 1);
          let crc := crc32 crc b in
          b ← index data i;
          mret (crc32 crc b))
       offsets crc
  = Normal (foldl (λ crc i,
                     crc32 (crc32 crc (byteAt (elems data) (Z.to_nat (i + 1))))
                           (byteAt (elems data) (Z.to_nat i)))
                  crc offsets).
Proof.
  intros Hoff. revert crc.
  induction Hoff as [|i offsets Hi _ IH]; intros crc; [done|].
  simpl. rewrite !index_Normal by lia. simpl. apply IH.
Qed.

Lemma combinedCRC32_swapPairs data stored :
  4 ≤ stored → (stored - 4) `mod` 2 = 0 → stored - 4 ≤ len data →
  combinedCRC32 data stored
  = Normal (foldl crc32 0
                  (swapPairs (take (Z.to_nat (stored - 4)) (elems data)))).
Proof.
  intros Hs Heven Hlen. unfold combinedCRC32.
  set (size := stored - 4) in *.
  assert (size = 2 * (size `div` 2)) as Hsize
    by (pose proof (Z.div_mod size 2); lia).
  assert ((size + 1) `div` 2 = size `div` 2) as Hhalf
    by (symmetry; apply Z.div_unique with 1; lia).
  rewrite combinedCRC32_offsets.
  - unfold pair_offsets. f_equal. rewrite Hhalf.
    replace (size `div` 2) with (Z.of_nat (Z.to_nat (size `div` 2))) at 1
      by lia.
    rewrite (foldl_swapPairs (λ j, byteAt (elems data) (Z.to_nat j))).
    rewrite Z2Nat.id by lia. rewrite <- Hsize. simpl. f_equal. f_equal.
    apply list_eq_byteAt.
    + rewrite length_fmap, length_seqZ. bytes_lengths. unfold len in *. lia.
    + intros j Hj. rewrite length_fmap, length_seqZ in Hj.
      rewrite byteAt_fmap_seqZ, byteAt_take.
      rewrite !decide_True by lia. f_equal. lia.
  - unfold pair_offsets. apply Forall_fmap, Forall_forall.
    intros k Hk. apply elem_of_seqZ in Hk. simpl. lia.
Qed.

Lemma take_inserts_wireImage data stored needed c crc (n : nat) :
  0 ≤ needed * c - 4 → (Z.to_nat (needed * c - 4) < n)%nat →
  take (Z.to_nat (needed * c - 4))
       (list_inserts 0 (wireImage data stored needed c crc) (replicate n 0))
  = paddedRegion data stored (needed * c - 4).
Proof.
  intros Hn Hfit. unfold wireImage.
  set (region := paddedRegion data stored (needed * c - 4)).
  assert (length region = Z.to_nat (needed * c - 4)) as Hlen
    by (subst region; by rewrite length_paddedRegion).
  clearbody region. apply list_eq_byteAt.
  - bytes_lengths. lia.
  - intros j Hj. bytes_at. bytes_lengths. simpl in *. bytes_cases.
Qed.

(** Reassembling the blocks of a fragment whose wire image fits the
    reassembly buffer, when the fragment's CRC field was zero on entry. *)
Lemma CombineDataBlocks_fragmentBlocks df dataType confirm :
  knownDataType dataType → DataFragment.CRC df = 0 →
  let c := userDataLength dataType confirm in
  let stored := storedLength df in
  let needed := neededBlocks stored c in
  let crc := fragmentCRC df c in
  needed * c - 4 < MaxPacketFragmentSize →
  CombineDataBlocks (fragmentBlocks df dataType c)
  = Normal
      (Some (DataFragment.mk
               (Bytes (list_inserts 0
                         (wireImage (elems (DataFragment.Data df)) stored
                                    needed c crc)
                         (replicate (Z.to_nat MaxPacketFragmentSize) 0))
                      [])
               (needed * c) 0 crc),
       None).
Proof.
  intros Hk Hcrc0 c stored needed crc Hfit.
  pose proof (userDataLength_blockCapacity dataType confirm Hk) as Hc.
  fold c in Hc. pose proof (blockCapacity_bounds c Hc) as Hcb.
  assert (0 ≤ stored) as HS
    by (subst stored; unfold storedLength, MaxPacketFragmentSize, len; lia).
  pose proof (neededBlocks_room stored c HS ltac:(lia)) as Hroom.
  pose proof (neededBlocks_pos stored c HS ltac:(lia)) as Hpos.
  fold needed in Hroom, Hpos.
  assert (0 ≤ crc < 2 ^ 32) as Hcrc by apply crc32end_uint32.
  unfold CombineDataBlocks, fragmentBlocks. fold stored needed crc.
  rewrite decide_False; last first.
  { intros Hnil. apply (f_equal length) in Hnil.
    rewrite length_fmap, length_seqZ in Hnil. simpl in Hnil. lia. }
  rewrite length_fmap, length_seqZ, Z2Nat.id by lia.
  unfold MaxPacketFragmentSize in *.
  replace needed with (Z.of_nat (Z.to_nat needed)) at 3 by lia.
  rewrite combineLoop_wireBlocks;
    [| done | done | lia
     | cbn [DataFragment.Data]; rewrite len_make; lia
     | lia | lia | lia | simpl; lia].
  cbn [mbind outcome_bind DataFragment.Data DataFragment.Stored
       DataFragment.CRC DataFragment.Needed make elems spare].
  change (Z.to_nat (0 * c)) with 0%nat. rewrite drop_0.
  rewrite combinedCRC32_swapPairs;
    [| lia | by apply blockCapacity_even
     | unfold len; cbn [elems]; rewrite length_inserts, length_replicate; lia ].
  cbn [mbind outcome_bind elems].
  rewrite take_inserts_wireImage by lia.
  assert (crc32end
            (foldl crc32 0
               (swapPairs (paddedRegion (elems (DataFragment.Data df)) stored
                                        (needed * c - 4))))
          = crc) as ->
    by (subst crc; unfold fragmentCRC; by rewrite Hcrc0).
  cbn [DataFragment.CRC]. rewrite decide_False by (intros Hne; by apply Hne).
  done.
Qed.

(** ** The claims on the fragmenter *)

Lemma byteAt_paddedRegion data stored size (j : nat) :
  0 ≤ stored ≤ Z.of_nat (length data) → (j < Z.to_nat size)%nat →
  byteAt (paddedRegion data stored size) j
  = if decide (Z.of_nat j < stored) then byteAt data j else 0.
Proof.
  intros Hs Hj. unfold paddedRegion. bytes_at. bytes_lengths. bytes_cases.
Qed.

Lemma byteAt_swapPairs (k : nat) : ∀ l : list Z,
  (2 * k + 1 < length l)%nat →
  byteAt (swapPairs l) (2 * k) = byteAt l (2 * k + 1)
  ∧ byteAt (swapPairs l) (2 * k + 1) = byteAt l (2 * k).
Proof.
  induction k as [|k IH]; intros [|a [|b l]] Hl; simpl in Hl; try lia.
  - done.
  - replace (2 * S k)%nat with (S (S (2 * k))) by lia.
    replace (S (S (2 * k)) + 1)%nat with (S (S (2 * k + 1))) by lia.
    simpl. apply IH. lia.
Qed.

(** C3: for a known rate type, [DataBlocks] returns [Needed] blocks, where
    [Needed] is the ceiling of [Stored / blockCap], plus one when fewer than
    4 bytes would remain in the last block; every block's payload has
    exactly [blockCap] bytes, and at least 4 bytes of the last block lie
    beyond the stored bytes. *)
Theorem C3_block_count_and_sizes df dataType confirm :
  knownDataType dataType →
  let c := userDataLength dataType confirm in
  ∃ df' blocks,
    DataBlocks df dataType confirm = Normal (df', (blocks, None))
    ∧ DataFragment.Stored df'
      = Z.min (len (DataFragment.Data df)) MaxPacketFragmentSize
    ∧ (∃ n0, (n0 - 1) * c < DataFragment.Stored df' ≤ n0 * c
             ∧ DataFragment.Needed df'
               = if decide (n0 * c - DataFragment.Stored df' < 4)
                 then n0 + 1 else n0)
    ∧ Z.of_nat (length blocks) = DataFragment.Needed df'
    ∧ Forall (λ b, len (DataBlock.Data b) = c
                   ∧ cap (DataBlock.Data b) = c
                   ∧ DataBlock.Length b = c) blocks
    ∧ 4 ≤ DataFragment.Needed df' * c - DataFragment.Stored df'.
Proof.
  intros Hk c.
  pose proof (userDataLength_blockCapacity dataType confirm Hk) as Hc.
  fold c in Hc. pose proof (blockCapacity_bounds c Hc) as Hcb.
  rewrite DataBlocks_Normal by done. fold c.
  set (stored := storedLength df). set (needed := neededBlocks stored c).
  assert (0 ≤ stored) as HS
    by (subst stored; unfold storedLength, MaxPacketFragmentSize, len; lia).
  pose proof (neededBlocks_room stored c HS ltac:(lia)) as Hroom.
  pose proof (neededBlocks_pos stored c HS ltac:(lia)) as Hpos.
  fold needed in Hroom, Hpos.
  eexists _, _. split; [done|]. cbn [DataFragment.Stored DataFragment.Needed].
  split; [done|]. split.
  { exists ((stored + c - 1) `quot` c). split; [|done].
    apply neededBlocks_ceil; lia. }
  split.
  { unfold fragmentBlocks. rewrite length_fmap, length_seqZ.
    fold stored needed. lia. }
  split; [|done].
  unfold fragmentBlocks. fold stored needed.
  apply Forall_fmap, Forall_forall. intros i Hi. apply elem_of_seqZ in Hi.
  assert (i * c + c ≤ needed * c) by nia. assert (0 ≤ i * c) by nia.
  unfold wireBlock, len, cap. simpl. rewrite app_nil_r.
  rewrite (length_wireChunk _ c i needed);
    [lia | by rewrite length_wireImage by lia | lia ..].
Qed.

(** C4: the CRC-32 [DataBlocks] stores is [crc32end] of the accumulator
    after feeding, from the CRC field on entry, the padded region of
    [Needed*blockCap - 4] bytes with the bytes of each pair swapped; a byte
    of the region at or beyond [Stored] is zero. *)
Theorem C4_fragment_crc_swapped_pairs df dataType confirm :
  knownDataType dataType →
  let c := userDataLength dataType confirm in
  let data := elems (DataFragment.Data df) in
  let stored := Z.min (len (DataFragment.Data df)) MaxPacketFragmentSize in
  let size := neededBlocks stored c * c - 4 in
  let region := paddedRegion data stored size in
  ∃ df' blocks,
    DataBlocks df dataType confirm = Normal (df', (blocks, None))
    ∧ DataFragment.CRC df'
      = crc32end (foldl crc32 (DataFragment.CRC df) (swapPairs region))
    ∧ Z.of_nat (length region) = size
    ∧ (∀ j : nat, Z.of_nat j < size →
         byteAt region j
         = if decide (Z.of_nat j < stored) then byteAt data j else 0)
    ∧ (∀ k : nat, Z.of_nat (2 * k + 1) < size →
         byteAt (swapPairs region) (2 * k) = byteAt region (2 * k + 1)
         ∧ byteAt (swapPairs region) (2 * k + 1) = byteAt region (2 * k)).
Proof.
  intros Hk c data stored size region.
  pose proof (userDataLength_blockCapacity dataType confirm Hk) as Hc.
  fold c in Hc. pose proof (blockCapacity_bounds c Hc) as Hcb.
  assert (0 ≤ stored ≤ Z.of_nat (length data)) as HS
    by (subst stored data; unfold MaxPacketFragmentSize, len; lia).
  pose proof (neededBlocks_room stored c ltac:(lia) ltac:(lia)) as Hroom.
  assert (length region = Z.to_nat size) as Hlen
    by (subst region; rewrite length_paddedRegion; subst size; lia).
  rewrite DataBlocks_Normal by done.
  eexists _, _. split; [done|]. split; [done|]. split; [subst size; lia|].
  split.
  - intros j Hj. subst region. rewrite byteAt_paddedRegion by lia. done.
  - intros k Hk2. apply byteAt_swapPairs. lia.
Qed.

(** C9: for the three data types of the table [userDataLength] is at
    least 10 and [DataBlocks] returns; for any other data type
    [userDataLength] is 0 and [DataBlocks] panics on the division. *)
Theorem C9_DataBlocks_total_on_known_types df dataType confirm :
  (knownDataType dataType →
     10 ≤ userDataLength dataType confirm
     ∧ ∃ df' blocks,
         DataBlocks df dataType confirm = Normal (df', (blocks, None)))
  ∧ (¬ knownDataType dataType →
       userDataLength dataType confirm = 0
       ∧ DataBlocks df dataType confirm = Panics IntegerDivideByZero).
Proof.
  split.
  - intros Hk. split.
    + pose proof (userDataLength_blockCapacity dataType confirm Hk) as Hc.
      apply blockCapacity_bounds in Hc. lia.
    + rewrite DataBlocks_Normal by done. by eexists _, _.
  - intros Hk. split; [by apply userDataLength_unknown|].
    unfold DataBlocks. rewrite userDataLength_unknown by done.
    by rewrite decide_True.
Qed.

(** C8: with no blocks, [CombineDataBlocks] returns no fragment and the
    error "no data blocks to combine". *)
Theorem C8_combine_empty :
  CombineDataBlocks [] = Normal (None, Some NoDataBlocks).
Proof. done. Qed.

(** ** The claims on the round trip *)

Lemma take_inserts_wireImage_data data needed c crc (n : nat) :
  let stored := Z.of_nat (length data) in
  stored ≤ needed * c - 4 → (Z.to_nat (needed * c - 4) < n)%nat →
  take (length data)
       (list_inserts 0 (wireImage data stored needed c crc) (replicate n 0))
  = data.
Proof.
  intros stored Hn Hfit. unfold wireImage, paddedRegion. subst stored.
  generalize (trailer crc). intros tr. rewrite Nat2Z.id.
  apply list_eq_byteAt.
  - bytes_lengths. lia.
  - intros j Hj. bytes_at. bytes_lengths. bytes_cases.
Qed.

Lemma byteAt_inserts_wireImage_padding data stored needed c crc (n j : nat) :
  stored ≤ Z.of_nat j < needed * c - 4 → (Z.to_nat (needed * c - 4) < n)%nat →
  byteAt (list_inserts 0 (wireImage data stored needed c crc)
                       (replicate n 0)) j = 0.
Proof.
  intros Hj Hfit. unfold wireImage, paddedRegion.
  generalize (trailer crc). intros tr.
  bytes_at. bytes_lengths. bytes_cases.
Qed.

(** The wire image of a payload of at most 1484 bytes fits the reassembly
    buffer, for every block capacity of the table. *)
Lemma neededBlocks_fits stored c :
  blockCapacity c → 0 ≤ stored ≤ 1484 →
  neededBlocks stored c * c - 4 < MaxPacketFragmentSize.
Proof.
  intros Hc Hs. unfold MaxPacketFragmentSize.
  pose proof (blockCapacity_bounds c Hc) as Hcb.
  pose proof (neededBlocks_tight stored c ltac:(lia) ltac:(lia)) as Ht.
  set (needed := neededBlocks stored c) in *. clearbody needed.
  destruct Hc as [-> | [-> | [-> | [-> | [-> | ->]]]]]; lia.
Qed.

(** C1, amended: when the wire image of the payload fits the reassembly
    buffer ([Needed*blockCap - 4 < 1500], which holds for every payload
    of at most 1484 bytes) and the fragment's CRC field is zero on entry,
    [CombineDataBlocks] applied to the blocks of [DataBlocks] succeeds;
    the first [len(p)] bytes of the fragment it returns are the payload,
    zeros follow up to the trailer, and [Stored] is [Needed*blockCap]
    (at least [len(p) + 4]), not [len(p)]. *)
Theorem C1_roundtrip_when_image_fits df dataType confirm :
  knownDataType dataType →
  DataFragment.CRC df = 0 →
  len (DataFragment.Data df) ≤ MaxPacketFragmentSize →
  let p := elems (DataFragment.Data df) in
  let c := userDataLength dataType confirm in
  let needed := neededBlocks (len (DataFragment.Data df)) c in
  needed * c - 4 < MaxPacketFragmentSize →
  ∃ df' blocks f,
    DataBlocks df dataType confirm = Normal (df', (blocks, None))
    ∧ CombineDataBlocks blocks = Normal (Some f, None)
    ∧ take (length p) (elems (DataFragment.Data f)) = p
    ∧ (∀ j : nat, len (DataFragment.Data df) ≤ Z.of_nat j < needed * c - 4 →
         byteAt (elems (DataFragment.Data f)) j = 0)
    ∧ len (DataFragment.Data f) = MaxPacketFragmentSize
    ∧ DataFragment.Stored f = needed * c
    ∧ len (DataFragment.Data df) + 4 ≤ DataFragment.Stored f
    ∧ DataFragment.CRC f = DataFragment.CRC df'.
Proof.
  intros Hk Hcrc0 Hlen p c needed Hfit.
  pose proof (userDataLength_blockCapacity dataType confirm Hk) as Hc.
  fold c in Hc. pose proof (blockCapacity_bounds c Hc) as Hcb.
  assert (storedLength df = len (DataFragment.Data df)) as Hst
    by (unfold storedLength; lia).
  pose proof (neededBlocks_room (len (DataFragment.Data df)) c
                ltac:(unfold len; lia) ltac:(lia)) as Hroom.
  fold needed in Hroom.
  rewrite DataBlocks_Normal by done. fold c.
  pose proof (CombineDataBlocks_fragmentBlocks df dataType confirm Hk Hcrc0)
    as Hcomb.
  cbv zeta in Hcomb. fold c in Hcomb. rewrite Hst in Hcomb.
  fold needed in Hcomb. specialize (Hcomb Hfit).
  eexists _, _, _. split; [done|].
  split; [exact Hcomb|].
  cbn [DataFragment.Data DataFragment.Stored DataFragment.CRC elems].
  fold p. unfold MaxPacketFragmentSize, len in *.
  fold p in Hroom, Hlen, Hfit |- *.
  split; [apply take_inserts_wireImage_data; lia|].
  split; [intros j Hj; apply byteAt_inserts_wireImage_padding; lia|].
  split; [cbn [elems]; rewrite length_inserts, length_replicate; lia|].
  split; [done|]. split; [lia|done].
Qed.

Lemma neededBlocks_empty c : blockCapacity c → neededBlocks 0 c = 1.
Proof.
  intros Hc. pose proof (blockCapacity_bounds c Hc) as Hcb.
  unfold neededBlocks. rewrite Z.quot_small by lia.
  by rewrite decide_True by lia.
Qed.

Lemma paddedRegion_empty (data : list Z) size :
  paddedRegion data 0 size = replicate (Z.to_nat size) 0.
Proof. unfold paddedRegion. simpl. by rewrite take_replicate, Nat.min_id. Qed.

Lemma swapPairs_zeros (n : nat) :
  swapPairs (replicate n 0) = replicate n 0
  ∧ swapPairs (replicate (S n) 0) = replicate (S n) 0.
Proof.
  induction n as [|n [IH1 IH2]]; [done|]. split; [done|].
  simpl. f_equal. f_equal. apply IH1.
Qed.

(** C2, amended: fragmenting an empty payload (CRC field zero on entry)
    yields exactly one block, whose payload is [blockCap - 4] zero bytes
    followed by the four CRC-32 trailer bytes; [CombineDataBlocks] on it
    succeeds and returns a fragment with [Stored = blockCap], not 0. *)
Theorem C2_empty_payload_one_block df dataType confirm :
  knownDataType dataType →
  DataFragment.CRC df = 0 →
  len (DataFragment.Data df) = 0 →
  let c := userDataLength dataType confirm in
  let crc := crc32end (foldl crc32 0 (replicate (Z.to_nat (c - 4)) 0)) in
  ∃ df' block f,
    DataBlocks df dataType confirm = Normal (df', ([block], None))
    ∧ elems (DataBlock.Data block)
      = replicate (Z.to_nat (c - 4)) 0 ++ trailer crc
    ∧ DataBlock.Length block = c
    ∧ DataBlock.Serial block = 0
    ∧ CombineDataBlocks [block] = Normal (Some f, None)
    ∧ DataFragment.Stored f = c
    ∧ DataFragment.CRC f = crc.
Proof.
  intros Hk Hcrc0 Hlen c crc.
  pose proof (userDataLength_blockCapacity dataType confirm Hk) as Hc.
  fold c in Hc. pose proof (blockCapacity_bounds c Hc) as Hcb.
  assert (storedLength df = 0) as Hst
    by (unfold storedLength, MaxPacketFragmentSize; lia).
  assert (fragmentCRC df c = crc) as Hfcrc.
  { unfold fragmentCRC. rewrite Hst, Hcrc0, neededBlocks_empty by done.
    rewrite paddedRegion_empty. replace (1 * c - 4) with (c - 4) by lia.
    by rewrite (proj1 (swapPairs_zeros _)). }
  assert (fragmentBlocks df dataType c
          = [wireBlock (replicate (Z.to_nat (c - 4)) 0 ++ trailer crc)
                       dataType c 0]) as Hblocks.
  { unfold fragmentBlocks. rewrite Hfcrc, Hst, neededBlocks_empty by done.
    unfold wireImage. rewrite paddedRegion_empty.
    by replace (1 * c - 4) with (c - 4) by lia. }
  pose proof (CombineDataBlocks_fragmentBlocks df dataType confirm Hk Hcrc0)
    as Hcomb.
  cbv zeta in Hcomb. fold c in Hcomb.
  rewrite Hst, neededBlocks_empty, Hblocks, Hfcrc in Hcomb by done.
  specialize (Hcomb ltac:(unfold MaxPacketFragmentSize; lia)).
  rewrite DataBlocks_Normal by done. fold c. rewrite Hblocks.
  eexists _, _, _. split; [done|].
  split.
  { cbn [wireBlock DataBlock.Data elems]. change (Z.to_nat (0 * c)) with 0%nat.
    rewrite drop_0. apply take_ge. rewrite length_app, length_replicate.
    simpl. lia. }
  split; [done|]. split; [done|]. split; [exact Hcomb|].
  split; [simpl; lia|done].
Qed.

(** ** The claims on the block codec *)

Lemma copy_make_full (x : list Z) n :
  length x = Z.to_nat n → copy (make n) (Bytes x []) = Bytes x [].
Proof.
  intros Hx. unfold copy, make. cbn [elems spare]. f_equal.
  apply list_eq_byteAt.
  - bytes_lengths. lia.
  - intros j Hj. bytes_at. bytes_lengths. bytes_cases.
Qed.


(** C6, amended: [ParseDataBlock] checks no length and has no structural
    error: on a buffer whose capacity is below the block length of the
    table it panics, with an index out of range when the block is
    confirmed and fewer than 2 bytes long, and with slice bounds out of
    range otherwise. *)
Theorem C6_short_buffer_panics data dataType confirmed :
  knownDataType dataType →
  cap data < userDataLength dataType false →
  ParseDataBlock data dataType confirmed
  = Panics (if confirmed
            then if decide (len data = 0) then IndexOutOfRange 0 0
                 else if decide (len data = 1) then IndexOutOfRange 1 1
                 else SliceBoundsOutOfRange
            else SliceBoundsOutOfRange).
Proof.
  intros Hk Hcap.
  destruct (userDataLength_known dataType confirmed Hk) as [Hsize Hlen].
  cbv zeta in Hsize, Hlen.
  set (size := userDataLength dataType false) in *.
  assert (0 ≤ len data ≤ cap data) as Hlc
    by (unfold len, cap; rewrite length_app; lia).
  unfold ParseDataBlock. rewrite Hlen. destruct confirmed.
  - rewrite (uint8_small (size - 2)), (uint8_small (2 + (size - 2))) by lia.
    destruct (decide (len data = 0)) as [H0|H0].
    { rewrite (index_Panics data 0) by lia. by rewrite H0. }
    rewrite (index_Normal data 0) by lia. cbn [mbind outcome_bind].
    destruct (decide (len data = 1)) as [H1|H1].
    { rewrite (index_Panics data 1) by lia. by rewrite H1. }
    rewrite (index_Normal data 1) by lia. cbn [mbind outcome_bind].
    by rewrite slice_Panics by lia.
  - rewrite (uint8_small size) by lia.
    by rewrite slice_Panics by lia.
Qed.

(** ** The claims on the reassembler *)

(** Before the final block the loop keeps [Stored] below the length of the
    fragment buffer. *)
Lemma combineBlock_Stored_invariant n f i block f' :
  i < n - 1 → 0 ≤ DataBlock.Length block →
  DataFragment.Stored f < len (DataFragment.Data f) →
  combineBlock n f i block = Normal f' →
  DataFragment.Stored f' < len (DataFragment.Data f').
Proof.
  intros Hi Hlen Hinv. unfold combineBlock.
  destruct (decide (DataBlock.Length block = 0)); [by intros [= <-]|].
  rewrite decide_True by done.
  destruct (decide (_ < _)) as [Hfit|]; [|by intros [= <-]].
  destruct (slice _ _ _) as [src|]; [|done]. cbn [mbind outcome_bind].
  unfold copy_at. destruct (decide _); [|done].
  intros [= <-]. unfold len in *. cbn [DataFragment.Data DataFragment.Stored elems].
  rewrite length_inserts. lia.
Qed.

(** C7: a block of non-zero length that fails the bound check (strict
    [<] against the 1500 bytes of the buffer; with 4 subtracted for the
    final block) is dropped: the step returns normally with [Data] and
    [Stored] as they were; a block before the final one is dropped also
    when it would bring [Stored] to exactly 1500. For the final block the
    step still reads the trailer, so the block is taken to satisfy the
    block invariant ([Length] a [uint8] within the payload) and [Stored]
    the loop invariant. *)
Theorem C7_overflowing_block_dropped n f i block :
  len (DataFragment.Data f) = MaxPacketFragmentSize →
  DataBlock.Length block ≠ 0 →
  let length := DataBlock.Length block in
  (i < n - 1 → ¬ DataFragment.Stored f + length < 1500 →
     combineBlock n f i block = Normal f)
  ∧ (i < n - 1 → DataFragment.Stored f + length = 1500 →
       combineBlock n f i block = Normal f)
  ∧ (¬ i < n - 1 → ¬ DataFragment.Stored f + length - 4 < 1500 →
       DataFragment.Stored f < 1500 →
       length < 256 → length ≤ len (DataBlock.Data block) →
       ∃ f', combineBlock n f i block = Normal f'
             ∧ DataFragment.Data f' = DataFragment.Data f
             ∧ DataFragment.Stored f' = DataFragment.Stored f).
Proof.
  intros Hbuf Hlen0 length. unfold MaxPacketFragmentSize in Hbuf.
  assert (i < n - 1 → ¬ DataFragment.Stored f + length < 1500 →
          combineBlock n f i block = Normal f) as Hdrop.
  { intros Hi Hfit. unfold combineBlock. fold length.
    rewrite decide_False by done. rewrite decide_True by done.
    by rewrite decide_False by lia. }
  split; [by apply Hdrop|]. split; [intros Hi Heq; apply Hdrop; (done || lia)|].
  intros Hi Hfit Hst Hu8 Hdata. unfold combineBlock. fold length.
  rewrite decide_False by done. rewrite decide_False by done.
  rewrite decide_False by lia. cbn [mbind outcome_bind mret outcome_ret].
  rewrite (uint8_small (length - 1)), (uint8_small (length - 2)),
    (uint8_small (length - 3)), (uint8_small (length - 4)) by lia.
  rewrite !index_Normal by lia. cbn [mbind outcome_bind].
  by eexists.
Qed.

(** ** Calling [DataBlocks] again *)

Lemma drop_wireChunk_trailer (region tr : list Z) (n c : nat) :
  length region = (n + c - 4)%nat → (4 ≤ c)%nat → length tr = 4%nat →
  drop (c - 4) (take c (drop n (region ++ tr))) = tr.
Proof.
  intros Hr Hc Htr. apply list_eq_byteAt.
  - bytes_lengths. lia.
  - intros j Hj. bytes_at. bytes_lengths. bytes_cases.
Qed.

(** The last block of a fragment ends with the trailer of its CRC-32. *)
Lemma fragmentBlocks_last df dataType confirm :
  knownDataType dataType →
  let c := userDataLength dataType confirm in
  ∃ block,
    last (fragmentBlocks df dataType c) = Some block
    ∧ drop (Z.to_nat (c - 4)) (elems (DataBlock.Data block))
      = trailer (fragmentCRC df c).
Proof.
  intros Hk c.
  pose proof (userDataLength_blockCapacity dataType confirm Hk) as Hc.
  fold c in Hc. pose proof (blockCapacity_bounds c Hc) as Hcb.
  unfold fragmentBlocks.
  set (stored := storedLength df). set (needed := neededBlocks stored c).
  assert (0 ≤ stored) as HS
    by (subst stored; unfold storedLength, MaxPacketFragmentSize, len; lia).
  pose proof (neededBlocks_room stored c HS ltac:(lia)) as Hroom.
  pose proof (neededBlocks_pos stored c HS ltac:(lia)) as Hpos.
  fold needed in Hroom, Hpos.
  assert (seqZ 0 needed = seqZ 0 (needed - 1) ++ [needed - 1]) as ->.
  { replace needed with ((needed - 1) + 1) at 1 by lia.
    by rewrite seqZ_app by lia. }
  rewrite fmap_app, (list_fmap_singleton (wireBlock _ _ _)), last_snoc.
  eexists. split; [done|].
  cbn [wireBlock DataBlock.Data elems]. unfold wireImage.
  replace (Z.to_nat (c - 4)) with (Z.to_nat c - 4)%nat by lia.
  assert (0 ≤ (needed - 1) * c) by nia.
  apply drop_wireChunk_trailer; [|lia|done].
  rewrite length_paddedRegion by lia. lia.
Qed.

(** Distinct CRC-32 values have distinct trailers. *)
Lemma trailer_inj a b :
  0 ≤ a < 2 ^ 32 → 0 ≤ b < 2 ^ 32 → trailer a = trailer b → a = b.
Proof.
  intros Ha Hb [= H0 H1 H2 H3].
  rewrite <- (trailer_uint32 a), <- (trailer_uint32 b) by done.
  by rewrite H0, H1, H2, H3.
Qed.

(** C10, amended: [DataBlocks] does not reset the CRC field. Whatever
    [crc32] and [crc32end] are, for a known rate type the call stores
    [crc32end] of the accumulation, started from the CRC field on entry,
    over the swapped padded region, and the last block ends with the four
    bytes of that value, least significant first; with the field at zero on
    entry the stored value is the checksum of the region. A second call on
    the fragment the first call left accumulates from the CRC the first
    call stored; it stores the same CRC as the first exactly when it writes
    the same trailer, exactly when it returns the same blocks, and exactly
    when it leaves the same fragment. If the checksum determines the
    accumulator it started from ([checksumInjective]) and the field on entry
    is below 2^32, the checksum of the region is stored only when the field
    is zero on entry, and the second call stores the same CRC as the first
    exactly when the first call left the CRC field as it was. The two calls
    need not differ: whenever a message of six bytes has checksum zero
    ([zeroChecksumMessage]), a fragment whose payload is that message with
    its byte pairs swapped and whose CRC field is zero, sent as confirmed
    rate 1/2 blocks, gets CRC zero from the first call, and the second call
    leaves the same fragment and returns the same blocks. *)
Theorem C10_crc_field_not_reset :
  (∀ df dataType confirm,
     knownDataType dataType →
     let c := userDataLength dataType confirm in
     let stored := Z.min (len (DataFragment.Data df)) MaxPacketFragmentSize in
     let region :=
       swapPairs (paddedRegion (elems (DataFragment.Data df)) stored
                               (neededBlocks stored c * c - 4)) in
     ∃ df1 blocks1 df2 blocks2 last1 last2,
       DataBlocks df dataType confirm = Normal (df1, (blocks1, None))
       ∧ DataBlocks df1 dataType confirm = Normal (df2, (blocks2, None))
       ∧ DataFragment.CRC df1
         = crc32end (foldl crc32 (DataFragment.CRC df) region)
       ∧ DataFragment.CRC df2
         = crc32end (foldl crc32 (DataFragment.CRC df1) region)
       ∧ last blocks1 = Some last1
       ∧ last blocks2 = Some last2
       ∧ drop (Z.to_nat (c - 4)) (elems (DataBlock.Data last1))
         = trailer (DataFragment.CRC df1)
       ∧ drop (Z.to_nat (c - 4)) (elems (DataBlock.Data last2))
         = trailer (DataFragment.CRC df2)
       ∧ (DataFragment.CRC df = 0 →
          DataFragment.CRC df1 = crc32end (foldl crc32 0 region))
       ∧ (DataFragment.CRC df2 = DataFragment.CRC df1
          ↔ trailer (DataFragment.CRC df2) = trailer (DataFragment.CRC df1))
       ∧ (DataFragment.CRC df2 = DataFragment.CRC df1 ↔ blocks2 = blocks1)
       ∧ (DataFragment.CRC df2 = DataFragment.CRC df1 ↔ df2 = df1)
       ∧ (checksumInjective → 0 ≤ DataFragment.CRC df < 2 ^ 32 →
          (DataFragment.CRC df1 = crc32end (foldl crc32 0 region)
           ↔ DataFragment.CRC df = 0)
          ∧ (DataFragment.CRC df2 = DataFragment.CRC df1
             ↔ DataFragment.CRC df1 = DataFragment.CRC df)))
  ∧ (∀ m df,
       zeroChecksumMessage m →
       elems (DataFragment.Data df) = swapPairs m →
       DataFragment.CRC df = 0 →
       ∃ df1 blocks,
         DataBlocks df Rate12Data true = Normal (df1, (blocks, None))
         ∧ DataFragment.CRC df1 = 0
         ∧ DataBlocks df1 Rate12Data true = Normal (df1, (blocks, None))).
Proof.
  assert (∀ df dataType confirm, knownDataType dataType →
    let c := userDataLength dataType confirm in
    let df1 := DataFragment.mk (DataFragment.Data df) (storedLength df)
                 (neededBlocks (storedLength df) c) (fragmentCRC df c) in
    DataBlocks df dataType confirm
    = Normal (df1, (fragmentBlocks df dataType c, None))
    ∧ DataBlocks df1 dataType confirm
      = Normal (DataFragment.mk (DataFragment.Data df) (storedLength df)
                  (neededBlocks (storedLength df) c) (fragmentCRC df1 c),
                (fragmentBlocks df1 dataType c, None))
    ∧ (fragmentCRC df1 c = fragmentCRC df c →
       fragmentBlocks df1 dataType c = fragmentBlocks df dataType c))
    as Hcalls.
  { intros df dataType confirm Hk c df1.
    split; [by rewrite DataBlocks_Normal|].
    split; [by rewrite DataBlocks_Normal|].
    intros Heq. unfold fragmentBlocks. by rewrite Heq. }
  split.
  - intros df dataType confirm Hk c stored region.
    destruct (Hcalls df dataType confirm Hk) as (Hcall1 & Hcall2 & Hsame).
    cbv zeta in Hcall1, Hcall2, Hsame. fold c in Hcall1, Hcall2, Hsame.
    set (df1 := DataFragment.mk (DataFragment.Data df) (storedLength df)
                  (neededBlocks (storedLength df) c) (fragmentCRC df c)) in *.
    destruct (fragmentBlocks_last df dataType confirm Hk) as (last1 & Hl1 & Ht1).
    destruct (fragmentBlocks_last df1 dataType confirm Hk)
      as (last2 & Hl2 & Ht2).
    cbv zeta in Ht1, Ht2. fold c in Hl1, Hl2, Ht1, Ht2.
    set (crc1 := fragmentCRC df c) in *. set (crc2 := fragmentCRC df1 c) in *.
    assert (0 ≤ crc1 < 2 ^ 32) as Hr1 by apply crc32end_uint32.
    assert (0 ≤ crc2 < 2 ^ 32) as Hr2 by apply crc32end_uint32.
    assert (crc2 = crc32end (foldl crc32 crc1 region)) as Hcrc2 by done.
    assert (crc1 = crc32end (foldl crc32 (DataFragment.CRC df) region))
      as Hcrc1 by done.
    eexists df1, _, _, _, last1, last2.
    split; [exact Hcall1|]. split; [exact Hcall2|].
    cbn [DataFragment.CRC df1].
    split; [exact Hcrc1|]. split; [exact Hcrc2|].
    split; [exact Hl1|]. split; [exact Hl2|].
    split; [exact Ht1|]. split; [exact Ht2|].
    split; [intros Hz; by rewrite Hcrc1, Hz|].
    split; [split; [by intros ->|by apply trailer_inj]|].
    split.
    { split; [exact Hsame|]. intros Hblocks.
      apply trailer_inj; [done..|]. rewrite <- Ht1, <- Ht2.
      rewrite Hblocks, Hl1 in Hl2. by injection Hl2 as ->. }
    split; [split; [by intros ->|by intros [= ->]]|].
    intros Hinj Hcrc. split.
    + split; [|intros Hz; by rewrite Hcrc1, Hz].
      rewrite Hcrc1. by apply Hinj.
    + split; [|intros Heq; by rewrite Hcrc2, Heq].
      rewrite Hcrc2. rewrite Hcrc1 at 2. by apply Hinj.
  - intros m df (Hlen & Hbytes & Hzero) Hdata Hcrc0.
    destruct df as [[data spare] stored needed crc].
    cbn [DataFragment.Data DataFragment.CRC elems] in Hdata, Hcrc0.
    subst data crc.
    set (df := DataFragment.mk (Bytes (swapPairs m) spare) stored needed 0).
    assert (knownDataType Rate12Data) as Hk by (by left).
    destruct (Hcalls df Rate12Data true Hk) as (Hcall1 & Hcall2 & Hsame).
    cbv zeta in Hcall1, Hcall2, Hsame.
    assert (userDataLength Rate12Data true = 10) as Hc
      by (unfold userDataLength; by rewrite dataBlockLengths_Rate12Data).
    rewrite Hc in *.
    assert (fragmentCRC df 10 = 0) as Hcrc.
    { unfold fragmentCRC, storedLength, len. cbn [df DataFragment.Data
        DataFragment.CRC elems].
      by destruct m as [|? [|? [|? [|? [|? [|? [|? ?]]]]]]]. }
    set (df1 := DataFragment.mk (DataFragment.Data df) (storedLength df)
                  (neededBlocks (storedLength df) 10) (fragmentCRC df 10)) in *.
    assert (fragmentCRC df1 10 = fragmentCRC df 10) as Heq.
    { change (fragmentCRC df1 10)
        with (fragmentCRC (DataFragment.mk (DataFragment.Data df)
                 (DataFragment.Stored df) (DataFragment.Needed df)
                 (fragmentCRC df 10)) 10).
      rewrite Hcrc. done. }
    exists df1, (fragmentBlocks df Rate12Data 10).
    split; [exact Hcall1|]. split; [exact Hcrc|].
    rewrite Hcall2, Heq, (Hsame Heq). done.
Qed.

End properties.

(** ** The reference CRC-32 determines the accumulator it started from *)

Lemma lxor_cancel_r a b c : Z.lxor a c = Z.lxor b c → a = b.
Proof.
  intros Heq. apply (f_equal (λ z, Z.lxor z c)) in Heq.
  by rewrite !Z.lxor_assoc, !Z.lxor_nilpotent, !Z.lxor_0_r in Heq.
Qed.

(** The register before the polynomial is applied: twice the low 31 bits
    plus the input bit. *)
Lemma reference_crc32_shift (crc : Z) (bit : bool) :
  (if bit then uint32 (uint32 (Z.shiftl crc 1) + 1)
   else uint32 (Z.shiftl crc 1))
  = 2 * (crc `mod` 2 ^ 31) + Z.b2z bit.
Proof.
  assert (uint32 (Z.shiftl crc 1) = 2 * (crc `mod` 2 ^ 31)) as ->.
  { unfold uint32. rewrite Z.shiftl_mul_pow2 by lia.
    change (2 ^ 32) with (2 * 2 ^ 31). rewrite (Z.mul_comm crc).
    change (2 ^ 1) with 2. by rewrite Z.mul_mod_distr_l by lia. }
  pose proof (Z.mod_pos_bound crc (2 ^ 31) ltac:(lia)).
  destruct bit; simpl; [|lia]. apply uint32_small. lia.
Qed.

Lemma reference_crc32_bit_testbit_0 crc bit :
  Z.testbit (Reference.crc32_bit crc bit) 0 = xorb bit (Z.testbit crc 31).
Proof.
  unfold Reference.crc32_bit. rewrite reference_crc32_shift.
  assert (Z.testbit (2 * (crc `mod` 2 ^ 31) + Z.b2z bit) 0 = bit) as Hlow.
  { destruct bit; simpl.
    - apply Z.testbit_odd_0.
    - rewrite Z.add_0_r. apply Z.testbit_even_0. }
  destruct (Z.testbit crc 31).
  - rewrite Z.lxor_spec, Hlow. done.
  - rewrite Hlow. by destruct bit.
Qed.

Lemma reference_crc32_bit_inj a b bit :
  0 ≤ a < 2 ^ 32 → 0 ≤ b < 2 ^ 32 →
  Reference.crc32_bit a bit = Reference.crc32_bit b bit → a = b.
Proof.
  intros Ha Hb Heq.
  assert (Z.testbit a 31 = Z.testbit b 31) as Htop.
  { apply (f_equal (λ z, Z.testbit z 0)) in Heq.
    rewrite !reference_crc32_bit_testbit_0 in Heq.
    by destruct bit, (Z.testbit a 31), (Z.testbit b 31). }
  unfold Reference.crc32_bit in Heq.
  rewrite !reference_crc32_shift, <- Htop in Heq.
  assert (a `mod` 2 ^ 31 = b `mod` 2 ^ 31) as Hlow.
  { destruct (Z.testbit a 31); [apply lxor_cancel_r in Heq|]; lia. }
  rewrite !Z.testbit_eqb in Htop by lia.
  pose proof (Z.div_mod a (2 ^ 31) ltac:(lia)).
  pose proof (Z.div_mod b (2 ^ 31) ltac:(lia)).
  assert (0 ≤ a `div` 2 ^ 31 < 2)
    by (split; [apply Z.div_pos|apply Z.div_lt_upper_bound]; lia).
  assert (0 ≤ b `div` 2 ^ 31 < 2)
    by (split; [apply Z.div_pos|apply Z.div_lt_upper_bound]; lia).
  assert (a `div` 2 ^ 31 = b `div` 2 ^ 31); [|lia].
  rewrite !(Z.mod_small (_ `div` _) 2) in Htop by lia.
  destruct (Z.eqb_spec (a `div` 2 ^ 31) 1), (Z.eqb_spec (b `div` 2 ^ 31) 1);
    (done || lia).
Qed.

Lemma foldl_inj {X} (f : Z → X → Z) (P : Z → Prop) (xs : list X) :
  (∀ c x, P c → P (f c x)) →
  (∀ a b x, P a → P b → f a x = f b x → a = b) →
  ∀ a b, P a → P b → foldl f a xs = foldl f b xs → a = b.
Proof.
  intros Hpres Hinj. induction xs as [|x xs IH]; intros a b Ha Hb Heq;
    [done|].
  simpl in Heq. apply IH in Heq; [|by apply Hpres..]. by apply Hinj in Heq.
Qed.

Lemma reference_crc32_range c x :
  0 ≤ Reference.crc32 c x < 2 ^ 32.
Proof.
  unfold Reference.crc32. apply foldl_range; [|done].
  intros. apply reference_crc32_bit_range.
Qed.

Lemma reference_crc32_inj a b x :
  0 ≤ a < 2 ^ 32 → 0 ≤ b < 2 ^ 32 →
  Reference.crc32 a x = Reference.crc32 b x → a = b.
Proof.
  unfold Reference.crc32. apply (foldl_inj _ (λ c, 0 ≤ c < 2 ^ 32)).
  - intros. apply reference_crc32_bit_range.
  - intros ? ? ?. apply reference_crc32_bit_inj.
Qed.

Lemma reference_crc32end_inj a b :
  0 ≤ a < 2 ^ 32 → 0 ≤ b < 2 ^ 32 →
  Reference.crc32end a = Reference.crc32end b → a = b.
Proof.
  unfold Reference.crc32end. apply (foldl_inj _ (λ c, 0 ≤ c < 2 ^ 32)).
  - intros. apply reference_crc32_bit_range.
  - intros ? ? ?. apply reference_crc32_bit_inj.
Qed.

(** The checksum of a byte sequence determines the accumulator it started
    from. *)
Lemma reference_checksum_inj (bytes : list Z) a b :
  0 ≤ a < 2 ^ 32 → 0 ≤ b < 2 ^ 32 →
  Reference.crc32end (foldl Reference.crc32 a bytes)
  = Reference.crc32end (foldl Reference.crc32 b bytes) →
  a = b.
Proof.
  intros Ha Hb Heq.
  assert (∀ c, 0 ≤ c < 2 ^ 32 → 0 ≤ foldl Reference.crc32 c bytes < 2 ^ 32)
    as Hrange.
  { intros c Hc. destruct bytes; [done|].
    apply foldl_range; [|done]. intros. apply reference_crc32_range. }
  apply reference_crc32end_inj in Heq; [|by apply Hrange..].
  revert Heq. apply (foldl_inj _ (λ c, 0 ≤ c < 2 ^ 32)); try done.
  - intros. apply reference_crc32_range.
  - intros ? ? ?. apply reference_crc32_inj.
Qed.

(** ** The readings of the CRC-32 *)

(** The CRC-32 operations of the instances. *)
Lemma reference_crc32end_eq : @crc32end reference = Reference.crc32end.
Proof. reflexivity. Qed.

Lemma reference_crc32_eq : @crc32 reference = Reference.crc32.
Proof. reflexivity. Qed.

Lemma complemented_crc32end_eq : @crc32end complemented = Complemented.crc32end.
Proof. reflexivity. Qed.

Lemma complemented_crc32_eq : @crc32 complemented = Reference.crc32.
Proof. reflexivity. Qed.

(** With the CRC-32 of [Reference], flushed or complemented, the checksum
    determines the accumulator it started from. *)
Lemma reference_checksumInjective : @checksumInjective reference.
Proof.
  intros bytes a b Ha Hb. rewrite reference_crc32end_eq, reference_crc32_eq.
  by apply reference_checksum_inj.
Qed.

Lemma complemented_checksumInjective : @checksumInjective complemented.
Proof.
  intros bytes a b Ha Hb.
  rewrite complemented_crc32end_eq, complemented_crc32_eq.
  unfold Complemented.crc32end. intros Heq. apply lxor_cancel_r in Heq.
  by apply (reference_checksum_inj bytes).
Qed.

(** In each reading a message of six bytes has checksum zero. *)
Lemma reference_zeroChecksumMessage :
  @zeroChecksumMessage reference [0; 0; 0; 0; 0; 0].
Proof.
  split; [reflexivity|]. split; [|vm_compute; reflexivity].
  repeat constructor; vm_compute; (discriminate || reflexivity).
Qed.

Lemma complemented_zeroChecksumMessage :
  @zeroChecksumMessage complemented [0; 0; 70; 175; 100; 73].
Proof.
  split; [reflexivity|]. split; [|vm_compute; reflexivity].
  repeat constructor; vm_compute; (discriminate || reflexivity).
Qed.

Lemma reflected_zeroChecksumMessage :
  @zeroChecksumMessage reflected [0; 0; 98; 245; 38; 146].
Proof.
  split; [reflexivity|]. split; [|vm_compute; reflexivity].
  repeat constructor; vm_compute; (discriminate || reflexivity).
Qed.

(** * Runs on the reference instance

    The theorems above at concrete fragments and blocks, with the data
    type codes and checksums of [Reference]; the last run also takes the
    CRC-32 in its other readings. *)

(** The hypotheses of the round trip hold for the payload [1; 2; 3] sent
    as unconfirmed rate 1/2 blocks. *)
Lemma C1_roundtrip_witness :
  let df := DataFragment.mk (Bytes [1; 2; 3] []) 0 0 0 in
  let dataType := Reference.Rate12Data in
  let confirm := false in
  let p := elems (DataFragment.Data df) in
  let c := userDataLength dataType confirm in
  let needed := neededBlocks (len (DataFragment.Data df)) c in
  (knownDataType dataType
   ∧ DataFragment.CRC df = 0
   ∧ len (DataFragment.Data df) ≤ MaxPacketFragmentSize
   ∧ needed * c - 4 < MaxPacketFragmentSize)
  ∧ ∃ df' blocks f,
      DataBlocks df dataType confirm = Normal (df', (blocks, None))
      ∧ CombineDataBlocks blocks = Normal (Some f, None)
      ∧ take (length p) (elems (DataFragment.Data f)) = p
      ∧ (∀ j : nat, len (DataFragment.Data df) ≤ Z.of_nat j < needed * c - 4 →
           byteAt (elems (DataFragment.Data f)) j = 0)
      ∧ len (DataFragment.Data f) = MaxPacketFragmentSize
      ∧ DataFragment.Stored f = needed * c
      ∧ len (DataFragment.Data df) + 4 ≤ DataFragment.Stored f
      ∧ DataFragment.CRC f = DataFragment.CRC df'.
Proof.
  intros df dataType confirm p c needed.
  assert (knownDataType dataType) as Hk by (left; reflexivity).
  assert (len (DataFragment.Data df) ≤ MaxPacketFragmentSize) as Hlen
    by (vm_compute; discriminate).
  assert (needed * c - 4 < MaxPacketFragmentSize) as Hfit
    by (vm_compute; reflexivity).
  split; [repeat split; assumption|].
  exact (C1_roundtrip_when_image_fits df dataType confirm Hk eq_refl Hlen Hfit).
Defined.

(** The payload [1; 2; 3] comes back with [Stored = 12], not 3; and a
    payload of 1500 bytes [0xAA], sent as unconfirmed rate 1/2 blocks, is
    not reassembled: block 124 fails the bound check, and the CRC-32 of
    what was stored differs from the trailer. *)
Lemma C1_roundtrip_counterexample :
  let small := DataFragment.mk (Bytes [1; 2; 3] []) 0 0 0 in
  let large := DataFragment.mk (Bytes (replicate 1500 0xAA) []) 0 0 0 in
  (∃ df' blocks f,
     DataBlocks small Reference.Rate12Data false = Normal (df', (blocks, None))
     ∧ CombineDataBlocks blocks = Normal (Some f, None)
     ∧ len (DataFragment.Data small) = 3
     ∧ DataFragment.Stored f = 12)
  ∧ (∃ df' blocks,
       DataBlocks large Reference.Rate12Data false
       = Normal (df', (blocks, None))
       ∧ len (DataFragment.Data large) = 1500
       ∧ CombineDataBlocks blocks
         = Normal (None, Some (FragmentCRCError 1951744472 1091710512))).
Proof.
  intros small large. split.
  - eexists _, _, _. split; [apply DataBlocks_Normal; left; reflexivity|].
    split; [apply CombineDataBlocks_fragmentBlocks;
            [left; reflexivity|reflexivity|vm_compute; reflexivity]|].
    split; vm_compute; reflexivity.
  - eexists _, _. split; [apply DataBlocks_Normal; left; reflexivity|].
    split; vm_compute; reflexivity.
Qed.

(** The hypotheses of the empty-payload theorem hold for the empty
    fragment sent as unconfirmed rate 1/2 blocks. *)
Lemma C2_empty_payload_witness :
  let df := DataFragment.mk (Bytes [] []) 0 0 0 in
  let dataType := Reference.Rate12Data in
  let confirm := false in
  let c := userDataLength dataType confirm in
  let crc := crc32end (foldl crc32 0 (replicate (Z.to_nat (c - 4)) 0)) in
  (knownDataType dataType
   ∧ DataFragment.CRC df = 0
   ∧ len (DataFragment.Data df) = 0)
  ∧ ∃ df' block f,
      DataBlocks df dataType confirm = Normal (df', ([block], None))
      ∧ elems (DataBlock.Data block)
        = replicate (Z.to_nat (c - 4)) 0 ++ trailer crc
      ∧ DataBlock.Length block = c
      ∧ DataBlock.Serial block = 0
      ∧ CombineDataBlocks [block] = Normal (Some f, None)
      ∧ DataFragment.Stored f = c
      ∧ DataFragment.CRC f = crc.
Proof.
  intros df dataType confirm c crc.
  assert (knownDataType dataType) as Hk by (left; reflexivity).
  split; [repeat split; (assumption || reflexivity)|].
  exact (C2_empty_payload_one_block df dataType confirm Hk eq_refl eq_refl).
Defined.

(** The empty payload sent as unconfirmed rate 1/2 blocks: the one block
    carries 12 bytes, eight of padding before the four of the trailer, and
    the reassembled fragment has [Stored = 12]. *)
Lemma C2_empty_payload_counterexample :
  let df := DataFragment.mk (Bytes [] []) 0 0 0 in
  let block := DataBlock.mk 0 271 false (Bytes (replicate 12 0) []) 12 in
  DataBlocks df Reference.Rate12Data false
  = Normal (DataFragment.mk (Bytes [] []) 0 1 0, ([block], None))
  ∧ len (DataBlock.Data block) = 12
  ∧ CombineDataBlocks [block]
    = Normal (Some (DataFragment.mk (make 1500) 12 0 0), None).
Proof. intros df block. repeat split; vm_compute; reflexivity. Qed.

(** Block count and sizes for the payload [1; 2; 3]. *)
Lemma C3_block_count_witness :
  let df := DataFragment.mk (Bytes [1; 2; 3] []) 0 0 0 in
  let dataType := Reference.Rate12Data in
  let confirm := false in
  let c := userDataLength dataType confirm in
  knownDataType dataType
  ∧ ∃ df' blocks,
      DataBlocks df dataType confirm = Normal (df', (blocks, None))
      ∧ DataFragment.Stored df'
        = Z.min (len (DataFragment.Data df)) MaxPacketFragmentSize
      ∧ (∃ n0, (n0 - 1) * c < DataFragment.Stored df' ≤ n0 * c
               ∧ DataFragment.Needed df'
                 = if decide (n0 * c - DataFragment.Stored df' < 4)
                   then n0 + 1 else n0)
      ∧ Z.of_nat (length blocks) = DataFragment.Needed df'
      ∧ Forall (λ b, len (DataBlock.Data b) = c
                     ∧ cap (DataBlock.Data b) = c
                     ∧ DataBlock.Length b = c) blocks
      ∧ 4 ≤ DataFragment.Needed df' * c - DataFragment.Stored df'.
Proof.
  intros df dataType confirm c.
  assert (knownDataType dataType) as Hk by (left; reflexivity).
  split; [assumption|].
  exact (C3_block_count_and_sizes df dataType confirm Hk).
Defined.

(** The swapped-pair CRC-32 for the payload [1; 2; 3]. *)
Lemma C4_fragment_crc_witness :
  let df := DataFragment.mk (Bytes [1; 2; 3] []) 0 0 0 in
  let dataType := Reference.Rate12Data in
  let confirm := false in
  let c := userDataLength dataType confirm in
  let data := elems (DataFragment.Data df) in
  let stored := Z.min (len (DataFragment.Data df)) MaxPacketFragmentSize in
  let size := neededBlocks stored c * c - 4 in
  let region := paddedRegion data stored size in
  knownDataType dataType
  ∧ ∃ df' blocks,
      DataBlocks df dataType confirm = Normal (df', (blocks, None))
      ∧ DataFragment.CRC df'
        = crc32end (foldl crc32 (DataFragment.CRC df) (swapPairs region))
      ∧ Z.of_nat (length region) = size
      ∧ (∀ j : nat, Z.of_nat j < size →
           byteAt region j
           = if decide (Z.of_nat j < stored) then byteAt data j else 0)
      ∧ (∀ k : nat, Z.of_nat (2 * k + 1) < size →
           byteAt (swapPairs region) (2 * k) = byteAt region (2 * k + 1)
           ∧ byteAt (swapPairs region) (2 * k + 1) = byteAt region (2 * k)).
Proof.
  intros df dataType confirm c data stored size region.
  assert (knownDataType dataType) as Hk by (left; reflexivity).
  split; [assumption|].
  exact (C4_fragment_crc_swapped_pairs df dataType confirm Hk).
Defined.



(** The empty buffer parsed as a confirmed rate 1/2 block. *)
Lemma C6_short_buffer_witness :
  let data := Bytes [] [] in
  let dataType := Reference.Rate12Data in
  let confirmed := true in
  (knownDataType dataType ∧ cap data < userDataLength dataType false)
  ∧ ParseDataBlock data dataType confirmed
    = Panics (if confirmed
              then if decide (len data = 0) then IndexOutOfRange 0 0
                   else if decide (len data = 1) then IndexOutOfRange 1 1
                   else SliceBoundsOutOfRange
              else SliceBoundsOutOfRange).
Proof.
  intros data dataType confirmed.
  assert (knownDataType dataType) as Hk by (left; reflexivity).
  assert (cap data < userDataLength dataType false) as Hcap
    by (vm_compute; reflexivity).
  split; [split; assumption|].
  exact (C6_short_buffer_panics data dataType confirmed Hk Hcap).
Defined.

(** Short buffers make [ParseDataBlock] panic: the empty buffer as a
    confirmed block, eleven bytes as an unconfirmed rate 1/2 block. *)
Lemma C6_short_buffer_counterexample :
  ParseDataBlock (Bytes [] []) Reference.Rate12Data true
  = Panics (IndexOutOfRange 0 0)
  ∧ ParseDataBlock (Bytes (replicate 11 0) []) Reference.Rate12Data false
    = Panics SliceBoundsOutOfRange.
Proof. split; vm_compute; reflexivity. Qed.

(** A twelve-byte block offered to a fragment that holds 1490 bytes. *)
Lemma C7_overflowing_block_witness :
  let n := 2 in
  let f := DataFragment.mk (make 1500) 1490 0 0 in
  let i := 0 in
  let block := DataBlock.mk 0 0 false (make 12) 12 in
  let length := DataBlock.Length block in
  (len (DataFragment.Data f) = MaxPacketFragmentSize
   ∧ DataBlock.Length block ≠ 0)
  ∧ (i < n - 1 → ¬ DataFragment.Stored f + length < 1500 →
       combineBlock n f i block = Normal f)
  ∧ (i < n - 1 → DataFragment.Stored f + length = 1500 →
       combineBlock n f i block = Normal f)
  ∧ (¬ i < n - 1 → ¬ DataFragment.Stored f + length - 4 < 1500 →
       DataFragment.Stored f < 1500 →
       length < 256 → length ≤ len (DataBlock.Data block) →
       ∃ f', combineBlock n f i block = Normal f'
             ∧ DataFragment.Data f' = DataFragment.Data f
             ∧ DataFragment.Stored f' = DataFragment.Stored f).
Proof.
  intros n f i block length.
  assert (len (DataFragment.Data f) = MaxPacketFragmentSize) as Hbuf
    by (vm_compute; reflexivity).
  assert (DataBlock.Length block ≠ 0) as Hlen by (vm_compute; discriminate).
  split; [split; assumption|].
  exact (C7_overflowing_block_dropped n f i block Hbuf Hlen).
Defined.

(** Two calls on the payload [1; 2; 3], starting from a zero CRC field, and
    two calls on the all-zero payload of six bytes, whose reference checksum
    is zero. *)
Lemma C10_crc_field_witness :
  let df := DataFragment.mk (Bytes [1; 2; 3] []) 0 0 0 in
  let dataType := Reference.Rate12Data in
  let confirm := false in
  let c := userDataLength dataType confirm in
  let stored := Z.min (len (DataFragment.Data df)) MaxPacketFragmentSize in
  let region :=
    swapPairs (paddedRegion (elems (DataFragment.Data df)) stored
                            (neededBlocks stored c * c - 4)) in
  let m := replicate 6 0 in
  let dfm := DataFragment.mk (Bytes (swapPairs m) []) 0 0 0 in
  (knownDataType dataType
   ∧ checksumInjective
   ∧ 0 ≤ DataFragment.CRC df < 2 ^ 32
   ∧ zeroChecksumMessage m
   ∧ elems (DataFragment.Data dfm) = swapPairs m
   ∧ DataFragment.CRC dfm = 0)
  ∧ (∃ df1 blocks1 df2 blocks2,
       DataBlocks df dataType confirm = Normal (df1, (blocks1, None))
       ∧ DataBlocks df1 dataType confirm = Normal (df2, (blocks2, None))
       ∧ DataFragment.CRC df1
         = crc32end (foldl crc32 (DataFragment.CRC df) region)
       ∧ DataFragment.CRC df2
         = crc32end (foldl crc32 (DataFragment.CRC df1) region)
       ∧ (DataFragment.CRC df2 = DataFragment.CRC df1 ↔ blocks2 = blocks1)
       ∧ (DataFragment.CRC df2 = DataFragment.CRC df1 ↔ df2 = df1)
       ∧ (DataFragment.CRC df1 = crc32end (foldl crc32 0 region)
          ↔ DataFragment.CRC df = 0)
       ∧ (DataFragment.CRC df2 = DataFragment.CRC df1
          ↔ DataFragment.CRC df1 = DataFragment.CRC df))
  ∧ (∃ df1 blocks,
       DataBlocks dfm Rate12Data true = Normal (df1, (blocks, None))
       ∧ DataFragment.CRC df1 = 0
       ∧ DataBlocks df1 Rate12Data true = Normal (df1, (blocks, None))).
Proof.
  intros df dataType confirm c stored region m dfm.
  assert (knownDataType dataType) as Hk by (left; reflexivity).
  assert (0 ≤ DataFragment.CRC df < 2 ^ 32) as Hcrc
    by (split; [vm_compute; discriminate|vm_compute; reflexivity]).
  assert (zeroChecksumMessage m) as Hm.
  { split; [reflexivity|]. split; [|vm_compute; reflexivity].
    repeat constructor; vm_compute; (discriminate || reflexivity). }
  assert (elems (DataFragment.Data dfm) = swapPairs m) as Hdata
    by reflexivity.
  assert (DataFragment.CRC dfm = 0) as Hcrc0 by reflexivity.
  split.
  { exact (conj Hk (conj reference_checksumInjective
             (conj Hcrc (conj Hm (conj Hdata Hcrc0))))). }
  destruct C10_crc_field_not_reset as [Hcalls Hfixed].
  split; [|exact (Hfixed m dfm Hm Hdata Hcrc0)].
  destruct (Hcalls df dataType confirm Hk)
    as (df1 & blocks1 & df2 & blocks2 & last1 & last2 & Hcall1 & Hcall2
        & Hcrc1 & Hcrc2 & _ & _ & _ & _ & _ & _ & Hblocks & Hdf & Hinj).
  destruct (Hinj reference_checksumInjective Hcrc) as [Hzero Hsame].
  exists df1, blocks1, df2, blocks2.
  exact (conj Hcall1 (conj Hcall2 (conj Hcrc1 (conj Hcrc2
           (conj Hblocks (conj Hdf (conj Hzero Hsame))))))).
Defined.

(** Two calls that agree, in each reading of the CRC-32. With the flushed
    CRC-32 of [Reference]: the empty payload with a zero CRC field, sent as
    unconfirmed rate 1/2 blocks. With the complemented CRC-32 of
    [Complemented]: the payload [0; 0; 175; 70; 73; 100] with a zero CRC
    field, sent as confirmed rate 1/2 blocks. With the reflected CRC-32 of
    [Reflected]: the payload [0; 0; 245; 98; 146; 38], sent likewise. In
    each, the first call leaves the CRC field at zero, and the second call
    leaves the same fragment and returns the same block, trailer
    included. *)
Lemma C10_crc_field_counterexample :
  (let df := DataFragment.mk (Bytes [] []) 0 0 0 in
   let df1 := DataFragment.mk (Bytes [] []) 0 1 0 in
   let block := DataBlock.mk 0 271 false (Bytes (replicate 12 0) []) 12 in
   @DataBlocks reference df Reference.Rate12Data false
   = Normal (df1, ([block], None))
   ∧ @DataBlocks reference df1 Reference.Rate12Data false
     = Normal (df1, ([block], None)))
  ∧ (let payload := [0; 0; 175; 70; 73; 100] in
     let df := DataFragment.mk (Bytes payload []) 0 0 0 in
     let df1 := DataFragment.mk (Bytes payload []) 6 1 0 in
     let block :=
       DataBlock.mk 0 351 false (Bytes (payload ++ [0; 0; 0; 0]) []) 10 in
     @DataBlocks complemented df Reference.Rate12Data true
     = Normal (df1, ([block], None))
     ∧ @DataBlocks complemented df1 Reference.Rate12Data true
       = Normal (df1, ([block], None)))
  ∧ (let payload := [0; 0; 245; 98; 146; 38] in
     let df := DataFragment.mk (Bytes payload []) 0 0 0 in
     let df1 := DataFragment.mk (Bytes payload []) 6 1 0 in
     let block :=
       DataBlock.mk 0 371 false (Bytes (payload ++ [0; 0; 0; 0]) []) 10 in
     @DataBlocks reflected df Reference.Rate12Data true
     = Normal (df1, ([block], None))
     ∧ @DataBlocks reflected df1 Reference.Rate12Data true
       = Normal (df1, ([block], None))).
Proof. repeat split; vm_compute; reflexivity. Qed.

(** * Further properties of the package *)

(** ** Bits of small numbers *)

Lemma testbit_small a n m : 0 ≤ a < 2 ^ n → 0 ≤ n ≤ m → Z.testbit a m = false.
Proof.
  intros Ha Hm. rewrite <- (Z.mod_small a (2 ^ n)) by done.
  apply Z.mod_pow2_bits_high. lia.
Qed.

Lemma testbit_1 n : 0 ≤ n → Z.testbit 1 n = (n =? 0).
Proof.
  intros Hn. destruct (Z.eqb_spec n 0) as [->|]; [done|].
  apply (testbit_small 1 1); lia.
Qed.

Lemma testbit_uint16 x n :
  0 ≤ n → Z.testbit (uint16 x) n = (n <? 16) && Z.testbit x n.
Proof. intros. unfold uint16. by rewrite Z.testbit_mod_pow2. Qed.

(** The two header bytes of a confirmed block hold a 7-bit serial and a
    9-bit checksum. *)
Lemma header_serial serial crc :
  0 ≤ serial < 128 →
  Z.shiftr (Z.lor (uint8 (Z.shiftl serial 1))
                  (Z.land (uint8 (Z.shiftr crc 8)) 0x01)) 1
  = serial.
Proof.
  intros Hs. apply Z.bits_inj'. intros n Hn.
  rewrite Z.shiftr_spec, Z.lor_spec, Z.land_spec, !testbit_uint8,
    Z.shiftl_spec, testbit_1 by lia.
  replace (n + 1 - 1) with n by lia.
  replace (n + 1 =? 0) with false by lia.
  rewrite andb_false_r, orb_false_r.
  destruct (Z.ltb_spec (n + 1) 8); [done|].
  symmetry. apply (testbit_small serial 7); lia.
Qed.

Lemma header_crc serial crc :
  0 ≤ crc < 2 ^ 9 →
  Z.lor (uint16 (Z.shiftl
                   (Z.land (Z.lor (uint8 (Z.shiftl serial 1))
                                  (Z.land (uint8 (Z.shiftr crc 8)) 0x01))
                           B00000001) 8))
        (uint8 crc)
  = crc.
Proof.
  intros Hc. apply Z.bits_inj'. intros n Hn. unfold B00000001.
  rewrite Z.lor_spec, testbit_uint16, testbit_uint8 by lia.
  destruct (Z.ltb_spec n 8) as [Hn8|Hn8].
  - rewrite Z.shiftl_spec_low by lia. by rewrite andb_false_r.
  - rewrite Z.shiftl_spec, Z.land_spec, Z.lor_spec, Z.land_spec, !testbit_uint8,
      Z.shiftl_spec, Z.shiftr_spec, !testbit_1 by lia.
    rewrite orb_false_r.
    destruct (Z.eqb_spec (n - 8) 0) as [Hn0|Hn0].
    + replace n with 8 by lia. simpl. by rewrite !andb_true_r.
    + rewrite !andb_false_r. simpl. symmetry.
      apply (testbit_small crc 9); lia.
Qed.

Section codec.
Context `{Externals}.

(** ** The CRC-9 of a block *)

Lemma crc9Masks_range dataType :
  0 ≤ default 0 (crc9Masks !! dataType) < 2 ^ 9.
Proof.
  unfold crc9Masks.
  destruct (decide (dataType = Rate12Data));
    [|destruct (decide (dataType = Rate34Data))];
    simplify_map_eq; simpl; lia.
Qed.

(** A value masked to nine bits and combined with a nine-bit mask. *)
Lemma masked_crc9_range crc mask :
  0 ≤ mask < 2 ^ 9 → 0 ≤ Z.lxor (Z.land crc 0x01ff) mask < 2 ^ 9.
Proof.
  intros Hmask. apply lxor_range; [lia| |done].
  change 0x01ff with (Z.ones 9). rewrite Z.land_ones by lia.
  apply Z.mod_pos_bound. lia.
Qed.

(** X1: whatever the bit-serial accumulator computes, the checksum of a
    block fits in nine bits. *)
Theorem calculateCRC9_nine_bits serial data dataType :
  0 ≤ calculateCRC9 serial data dataType < 2 ^ 9.
Proof.
  unfold calculateCRC9. cbv zeta.
  apply masked_crc9_range, crc9Masks_range.
Qed.

(** ** The block encoder and the block parser *)

Lemma dataBlockLengths_known dataType :
  knownDataType dataType →
  ∃ size, dataBlockLengths !! dataType = Some size
          ∧ (size = 12 ∨ size = 18 ∨ size = 22)
          ∧ ∀ confirmed,
              userDataLength dataType confirmed
              = if confirmed then size - 2 else size.
Proof.
  unfold userDataLength.
  intros [-> | [-> | ->]];
    rewrite ?dataBlockLengths_Rate12Data, ?dataBlockLengths_Rate34Data,
      ?dataBlockLengths_Data;
    eexists; (split; [done|]); (split; [lia|]); by intros [].
Qed.

Lemma userDataLength_table dataType :
  userDataLength dataType false = default 0 (dataBlockLengths !! dataType).
Proof. unfold userDataLength. by destruct (dataBlockLengths !! dataType). Qed.

Lemma byteAt_cons x l j :
  byteAt (x :: l) j = if decide (j = 0)%nat then x else byteAt l (j - 1).
Proof.
  destruct j as [|j]; [done|]. simpl. by replace (j - 0)%nat with j by lia.
Qed.

(** [copy] into a fresh buffer pads with zeros or truncates. *)
Lemma copy_make (n : Z) (src : bytes) :
  0 ≤ n →
  copy (make n) src
  = Bytes (take (Z.to_nat n) (elems src)
           ++ replicate (Z.to_nat n - length (elems src)) 0) [].
Proof.
  intros Hn. unfold copy, make. cbn [elems spare]. f_equal.
  apply list_eq_byteAt.
  - bytes_lengths. lia.
  - intros j Hj. bytes_at. bytes_lengths. bytes_cases.
Qed.

(** The parser on a confirmed block whose buffer is long enough. *)
Lemma ParseDataBlock_confirmed data dataType :
  knownDataType dataType →
  let length := userDataLength dataType true in
  2 ≤ len data → 2 + length ≤ cap data →
  let b0 := byteAt (elems data) 0 in
  let b1 := byteAt (elems data) 1 in
  let serial := Z.shiftr b0 1 in
  let stored := Z.lor (uint16 (Z.shiftl (Z.land b0 B00000001) 8)) b1 in
  let payload :=
    Bytes (take (Z.to_nat length) (drop 2 (elems data ++ spare data))) [] in
  let crc := calculateCRC9 serial payload dataType in
  ParseDataBlock data dataType true
  = if decide (crc ≠ stored)
    then Normal (None, Some (BlockCRCError crc stored))
    else Normal (Some (DataBlock.mk serial stored true payload length), None).
Proof.
  intros Hk length Hlen Hcap b0 b1 serial stored payload crc.
  pose proof (userDataLength_blockCapacity dataType true Hk) as Hc.
  fold length in Hc. pose proof (blockCapacity_bounds length Hc) as Hcb.
  unfold ParseDataBlock. fold length.
  rewrite (uint8_small length), (uint8_small (2 + length)) by lia.
  rewrite !index_Normal by lia. cbn [mbind outcome_bind].
  unfold slice. rewrite decide_True by lia. cbn [mbind outcome_bind].
  replace (2 + length - 2) with length by lia.
  change (Z.to_nat 2) with 2%nat. change (Z.to_nat 0) with 0%nat.
  change (Z.to_nat 1) with 1%nat.
  assert (copy (make length)
            (Bytes (take (Z.to_nat length) (drop 2 (elems data ++ spare data)))
                   (drop (Z.to_nat (2 + length)) (elems data ++ spare data)))
          = payload) as ->; [|done].
  subst payload. unfold copy. cbn [elems spare make]. f_equal.
  unfold cap in Hcap. apply list_eq_byteAt.
  - bytes_lengths. lia.
  - intros j Hj. rewrite byteAt_inserts. bytes_lengths. bytes_cases.
Qed.

(** The wire form of a confirmed block: the serial in the top seven bits
    of byte 0, the ninth bit of the CRC-9 in its low bit, the low eight
    bits of the CRC-9 in byte 1, then the payload, zero padded or
    truncated to the table length less two. *)
Lemma DataBlock_Bytes_confirmed db dataType :
  knownDataType dataType →
  let size := userDataLength dataType false in
  let crc :=
    calculateCRC9 (DataBlock.Serial db) (DataBlock.Data db) dataType in
  let payload := elems (DataBlock.Data db) in
  DataBlock_Bytes db dataType true
  = Normal
      (DataBlock.mk (DataBlock.Serial db) crc (DataBlock.OK db)
                    (DataBlock.Data db) (DataBlock.Length db),
       Bytes ([Z.lor (uint8 (Z.shiftl (DataBlock.Serial db) 1))
                     (Z.land (uint8 (Z.shiftr crc 8)) 0x01);
               uint8 crc]
              ++ take (Z.to_nat (size - 2)) payload
              ++ replicate (Z.to_nat (size - 2) - length payload) 0) []).
Proof.
  intros Hk size crc payload.
  destruct (dataBlockLengths_known dataType Hk) as (L & HL & Hsize & Hlen).
  subst size. rewrite (Hlen false). unfold DataBlock_Bytes. rewrite HL.
  change (default 0 (Some L)) with L.
  cbn [DataBlock.Serial DataBlock.CRC DataBlock.Data]. fold crc.
  rewrite set_index_Normal by (rewrite len_make; lia).
  cbn [mbind outcome_bind].
  rewrite set_index_Normal
    by (unfold len; cbn [elems make]; rewrite length_insert, length_replicate; lia).
  cbn [mbind outcome_bind].
  rewrite copy_at_Normal
    by (unfold len; cbn [elems make];
        rewrite !length_insert, length_replicate; lia).
  cbn [mbind outcome_bind mret outcome_ret elems spare make].
  do 3 f_equal. fold payload.
  change (Z.to_nat 0) with 0%nat. change (Z.to_nat 1) with 1%nat.
  change (Z.to_nat 2) with 2%nat.
  set (n := Z.to_nat L). replace (Z.to_nat (L - 2)) with (n - 2)%nat by lia.
  assert (12 ≤ n)%nat as Hn by lia. clearbody n.
  apply list_eq_byteAt.
  - bytes_lengths. simpl. lia.
  - intros j Hj. bytes_lengths.
    rewrite byteAt_inserts, !byteAt_insert, byteAt_replicate, byteAt_app.
    rewrite !byteAt_cons, byteAt_app, byteAt_take, byteAt_replicate.
    bytes_lengths. simpl length.
    bytes_cases.
Qed.


(** The parser accepts the wire form of a confirmed block. *)
Lemma ParseDataBlock_wire_confirmed serial (payload : list Z) dataType :
  knownDataType dataType →
  0 ≤ serial < 128 →
  Z.of_nat (length payload) = userDataLength dataType true →
  let crc := calculateCRC9 serial (Bytes payload []) dataType in
  ParseDataBlock
    (Bytes ([Z.lor (uint8 (Z.shiftl serial 1))
                   (Z.land (uint8 (Z.shiftr crc 8)) 0x01);
             uint8 crc] ++ payload) [])
    dataType true
  = Normal (Some (DataBlock.mk serial crc true (Bytes payload [])
                               (userDataLength dataType true)),
            None).
Proof.
  intros Hk Hserial Hlen crc.
  destruct (dataBlockLengths_known dataType Hk) as (L & HL & Hsize & HuL).
  rewrite (HuL true) in Hlen.
  rewrite ParseDataBlock_confirmed; [|done|..]; cycle 1.
  { unfold len. cbn [elems]. rewrite length_app. simpl length. lia. }
  { rewrite (HuL true). unfold cap. cbn [elems spare].
    rewrite !length_app. simpl length. lia. }
  cbv zeta. rewrite (HuL true). cbn [elems spare].
  change (byteAt ([?a; ?b] ++ payload) 0) with a.
  cbn [app byteAt lookup list_lookup default from_option id drop].
  rewrite drop_0, app_nil_r, take_ge by lia.
  assert (0 ≤ crc < 2 ^ 9) as Hcrc
    by (subst crc; unfold calculateCRC9;
        apply masked_crc9_range, crc9Masks_range).
  rewrite header_serial, header_crc by done. fold crc.
  by rewrite decide_False by (intros Hne; by apply Hne).
Qed.

(** X2: a confirmed block of a known type whose serial fits seven bits and
    whose payload has the table length less two is parsed back from its
    wire form: [Bytes] stores the CRC-9 in the receiver, and
    [ParseDataBlock] accepts the bytes and returns the serial, the CRC-9
    and the payload, with [OK] set. *)
Theorem Bytes_ParseDataBlock_confirmed db dataType :
  knownDataType dataType →
  0 ≤ DataBlock.Serial db < 128 →
  len (DataBlock.Data db) = userDataLength dataType true →
  let crc :=
    calculateCRC9 (DataBlock.Serial db) (DataBlock.Data db) dataType in
  ∃ db' wire,
    DataBlock_Bytes db dataType true = Normal (db', wire)
    ∧ db' = DataBlock.mk (DataBlock.Serial db) crc (DataBlock.OK db)
                         (DataBlock.Data db) (DataBlock.Length db)
    ∧ len wire = userDataLength dataType false
    ∧ ParseDataBlock wire dataType true
      = Normal (Some (DataBlock.mk (DataBlock.Serial db) crc true
                                   (Bytes (elems (DataBlock.Data db)) [])
                                   (userDataLength dataType true)),
                None).
Proof.
  intros Hk Hserial Hlen crc.
  destruct (dataBlockLengths_known dataType Hk) as (L & HL & Hsize & HuL).
  rewrite DataBlock_Bytes_confirmed by done. cbv zeta. fold crc.
  pose proof (ParseDataBlock_wire_confirmed (DataBlock.Serial db)
                (elems (DataBlock.Data db)) dataType Hk Hserial Hlen) as Hparse.
  cbv zeta in Hparse.
  change (calculateCRC9 (DataBlock.Serial db)
            (Bytes (elems (DataBlock.Data db)) []) dataType) with crc in Hparse.
  unfold len in Hlen. rewrite (HuL false), (HuL true) in *.
  replace (Z.to_nat (L - 2)) with (length (elems (DataBlock.Data db))) by lia.
  rewrite Nat.sub_diag, take_ge, app_nil_r by lia.
  eexists _, _. split; [done|]. split; [done|]. split; [|exact Hparse].
  unfold len. cbn [elems]. rewrite length_app. simpl length. lia.
Qed.

Lemma userDataLength_range dataType confirmed :
  0 ≤ userDataLength dataType confirmed ≤ 22.
Proof.
  unfold userDataLength, dataBlockLengths.
  destruct (decide (dataType = Rate12Data));
    [|destruct (decide (dataType = Rate34Data));
      [|destruct (decide (dataType = Data))]];
    simplify_map_eq; destruct confirmed; simpl; lia.
Qed.

(** X3: the wire form of an unconfirmed block is its payload, zero padded
    or truncated to the table length (no bytes at all for a data type
    outside the table); it carries neither the serial nor the CRC-9, and
    [ParseDataBlock] returns it as a block with serial 0, CRC 0 and [OK]
    set. The receiver is left as it was. *)
Theorem Bytes_ParseDataBlock_unconfirmed db dataType :
  let size := userDataLength dataType false in
  let payload := elems (DataBlock.Data db) in
  let wire :=
    Bytes (take (Z.to_nat size) payload
           ++ replicate (Z.to_nat size - length payload) 0) [] in
  DataBlock_Bytes db dataType false = Normal (db, wire)
  ∧ len wire = size
  ∧ ParseDataBlock wire dataType false
    = Normal (Some (DataBlock.mk 0 0 true wire size), None).
Proof.
  intros size payload wire.
  pose proof (userDataLength_range dataType false) as Hsize. fold size in Hsize.
  assert (length (elems wire) = Z.to_nat size) as Hwire.
  { subst wire. cbn [elems]. bytes_lengths. lia. }
  split; [|split].
  - unfold DataBlock_Bytes. rewrite <- userDataLength_table. fold size.
    cbn [mret outcome_ret]. by rewrite copy_make by lia.
  - unfold len. lia.
  - unfold ParseDataBlock. fold size. rewrite (uint8_small size) by lia.
    subst wire. rewrite slice_whole by (done || lia).
    cbn [mbind outcome_bind]. by rewrite copy_make_full by done.
Qed.

(** X4: for a data type outside the table the encoder allocates no bytes:
    the confirmed branch panics on the first header byte. *)
Theorem Bytes_unknown_type_panics db dataType :
  ¬ knownDataType dataType →
  DataBlock_Bytes db dataType true = Panics (IndexOutOfRange 0 0).
Proof.
  intros Hk. unfold DataBlock_Bytes.
  rewrite dataBlockLengths_unknown by done. done.
Qed.

(** X5: an unconfirmed block is parsed without any check: whenever the
    capacity of the buffer reaches the table length, [ParseDataBlock]
    returns a block with [OK] set and no error, holding the first bytes of
    the backing array, also those between the length and the capacity of
    the buffer. *)
Theorem ParseDataBlock_unconfirmed data dataType :
  let size := userDataLength dataType false in
  size ≤ cap data →
  ParseDataBlock data dataType false
  = Normal
      (Some (DataBlock.mk 0 0 true
               (Bytes (take (Z.to_nat size) (elems data ++ spare data)) [])
               size),
       None).
Proof.
  intros size Hcap.
  pose proof (userDataLength_range dataType false) as Hsize. fold size in Hsize.
  unfold ParseDataBlock. fold size. rewrite (uint8_small size) by lia.
  unfold slice. rewrite decide_True by lia. cbn [mbind outcome_bind].
  change (Z.to_nat 0) with 0%nat. rewrite drop_0, Z.sub_0_r.
  rewrite copy_make by lia. cbn [elems].
  unfold cap in Hcap.
  rewrite take_take, Nat.min_id, length_take, Nat.min_l by lia.
  by rewrite Nat.sub_diag, app_nil_r.
Qed.

(** X6: the parser never returns an unchecked block. Whenever
    [ParseDataBlock] returns a block, for any buffer and data type, the
    error is nil, [OK] is set, [Length] is the user data length of the
    table and the length of [Data]; and for a confirmed block the CRC field
    is the CRC-9 of the returned serial and payload. *)
Theorem ParseDataBlock_sound data dataType confirmed b err :
  ParseDataBlock data dataType confirmed = Normal (Some b, err) →
  err = None
  ∧ DataBlock.OK b = true
  ∧ DataBlock.Length b = userDataLength dataType confirmed
  ∧ len (DataBlock.Data b) = DataBlock.Length b
  ∧ (confirmed = true →
     DataBlock.CRC b
     = calculateCRC9 (DataBlock.Serial b) (DataBlock.Data b) dataType).
Proof.
  pose proof (userDataLength_range dataType confirmed) as Hsize.
  unfold ParseDataBlock. rewrite (uint8_small (userDataLength _ _)) by lia.
  set (length := userDataLength dataType confirmed) in *.
  assert (∀ src, len (copy (make length) src) = length) as Hcopy.
  { intros src. unfold len, copy, make. cbn [elems].
    rewrite length_inserts, length_replicate. lia. }
  destruct confirmed.
  - destruct (index data 0) as [b0|]; [|done]. cbn [mbind outcome_bind].
    destruct (index data 1) as [b1|]; [|done]. cbn [mbind outcome_bind].
    destruct (slice _ _ _) as [src|]; [|done]. cbn [mbind outcome_bind].
    destruct (decide (_ ≠ _)) as [|Hcrc]; [done|]. intros [= <- <-].
    cbn [DataBlock.OK DataBlock.Length DataBlock.Data DataBlock.CRC
         DataBlock.Serial].
    repeat split; [done|]. intros _.
    by destruct (decide (calculateCRC9 (Z.shiftr b0 1)
                           (copy (make length) src) dataType
                         = Z.lor (uint16 (Z.shiftl (Z.land b0 B00000001) 8))
                                 b1)).
  - destruct (slice _ _ _) as [src|]; [|done]. cbn [mbind outcome_bind].
    intros [= <- <-].
    cbn [DataBlock.OK DataBlock.Length DataBlock.Data]. by repeat split.
Qed.

End codec.

(** ** The fragmenter *)

(** Consecutive chunks of an array make up the array. *)
Lemma concat_chunks (image : list Z) (c : nat) : ∀ k a : nat,
  concat ((λ i : nat, take c (drop ((a + i) * c) image)) <$> seq 0 k)
  = take (k * c) (drop (a * c) image).
Proof.
  induction k as [|k IH]; intros a; [done|].
  cbn [seq fmap list_fmap concat]. rewrite <- fmap_S_seq, <- list_fmap_compose.
  rewrite (list_fmap_ext _ (λ i : nat, take c (drop ((S a + i) * c) image))
                         (seq 0 k)); [|intros; simpl; f_equal; f_equal; lia].
  rewrite IH, Nat.add_0_r.
  replace (S a * c)%nat with (a * c + c)%nat by lia.
  replace (S k * c)%nat with (c + k * c)%nat by lia.
  generalize (a * c)%nat (k * c)%nat. intros m n.
  apply list_eq_byteAt.
  - bytes_lengths. lia.
  - intros j Hj. bytes_at. bytes_lengths. bytes_cases.
Qed.

Lemma paddedRegion_app (data : list Z) stored size :
  0 ≤ stored ≤ Z.of_nat (length data) → stored ≤ size →
  paddedRegion data stored size
  = take (Z.to_nat stored) data ++ replicate (Z.to_nat (size - stored)) 0.
Proof.
  intros Hs Hsize. unfold paddedRegion. apply list_eq_byteAt.
  - bytes_lengths. lia.
  - intros j Hj. bytes_at. bytes_lengths. bytes_cases.
Qed.

Section fragmenter.
Context `{Externals}.

Lemma storedLength_range df :
  0 ≤ storedLength df ≤ len (DataFragment.Data df)
  ∧ storedLength df ≤ MaxPacketFragmentSize.
Proof. unfold storedLength, MaxPacketFragmentSize, len. lia. Qed.

(** X7: the number of blocks is the least one that holds the stored bytes
    and the four bytes of the CRC-32. *)
Theorem DataBlocks_Needed_least df dataType confirm :
  knownDataType dataType →
  let c := userDataLength dataType confirm in
  ∃ df' blocks,
    DataBlocks df dataType confirm = Normal (df', (blocks, None))
    ∧ DataFragment.Stored df' + 4 ≤ DataFragment.Needed df' * c
    ∧ (∀ m, DataFragment.Stored df' + 4 ≤ m * c → DataFragment.Needed df' ≤ m)
    ∧ 1 ≤ DataFragment.Needed df' ≤ 151.
Proof.
  intros Hk c. rewrite DataBlocks_Normal by done. fold c.
  pose proof (userDataLength_blockCapacity dataType confirm Hk) as Hc.
  fold c in Hc. pose proof (blockCapacity_bounds c Hc) as Hcb.
  destruct (storedLength_range df) as [Hs Hmax].
  unfold MaxPacketFragmentSize in Hmax.
  pose proof (neededBlocks_room (storedLength df) c ltac:(lia) ltac:(lia))
    as Hroom.
  pose proof (neededBlocks_tight (storedLength df) c ltac:(lia) ltac:(lia))
    as Htight.
  pose proof (neededBlocks_pos (storedLength df) c ltac:(lia) ltac:(lia))
    as Hpos.
  eexists _, _. split; [done|]. cbn [DataFragment.Stored DataFragment.Needed].
  split; [lia|]. split; [intros m Hm; nia|]. split; [done|]. nia.
Qed.

(** The fragmenter reads the first 1500 bytes of the data only. *)
Lemma fragment_truncated df :
  let df1500 :=
    DataFragment.mk
      (Bytes (take (Z.to_nat MaxPacketFragmentSize)
                   (elems (DataFragment.Data df))) [])
      (DataFragment.Stored df) (DataFragment.Needed df)
      (DataFragment.CRC df) in
  storedLength df1500 = storedLength df
  ∧ ∀ size,
      paddedRegion (elems (DataFragment.Data df1500)) (storedLength df) size
      = paddedRegion (elems (DataFragment.Data df)) (storedLength df) size.
Proof.
  intros df1500. unfold storedLength, len, MaxPacketFragmentSize.
  cbn [df1500 DataFragment.Data elems]. rewrite length_take.
  change (Z.to_nat MaxPacketFragmentSize) with 1500%nat. split; [lia|].
  intros size. unfold paddedRegion.
  rewrite take_take. do 3 f_equal. lia.
Qed.

(** X8: bytes of the data past the first 1500 are ignored without any
    error: the call returns the same blocks, and leaves the same [Stored],
    [Needed] and [CRC], as on the fragment cut to its first 1500 bytes. *)
Theorem DataBlocks_ignores_bytes_past_1500 df dataType confirm :
  knownDataType dataType →
  let df1500 :=
    DataFragment.mk
      (Bytes (take (Z.to_nat MaxPacketFragmentSize)
                   (elems (DataFragment.Data df))) [])
      (DataFragment.Stored df) (DataFragment.Needed df)
      (DataFragment.CRC df) in
  ∃ df' blocks,
    DataBlocks df dataType confirm = Normal (df', (blocks, None))
    ∧ DataBlocks df1500 dataType confirm
      = Normal (DataFragment.mk (DataFragment.Data df1500)
                                (DataFragment.Stored df')
                                (DataFragment.Needed df')
                                (DataFragment.CRC df'),
                (blocks, None))
    ∧ DataFragment.Data df' = DataFragment.Data df
    ∧ DataFragment.Stored df' ≤ MaxPacketFragmentSize.
Proof.
  intros Hk df1500. rewrite !DataBlocks_Normal by done.
  destruct (fragment_truncated df) as [Hst Hregion]. fold df1500 in Hst, Hregion.
  assert (fragmentCRC df1500 (userDataLength dataType confirm)
          = fragmentCRC df (userDataLength dataType confirm)) as Hcrc.
  { unfold fragmentCRC. by rewrite Hst, Hregion. }
  eexists _, _. split; [done|].
  cbn [DataFragment.Stored DataFragment.Needed DataFragment.CRC
       DataFragment.Data].
  split; [|split; [done|apply storedLength_range]].
  unfold fragmentBlocks, wireImage. by rewrite Hcrc, Hst, Hregion.
Qed.

(** X9: the payloads of the blocks, one after the other, are the stored
    bytes, zero padding up to four bytes before the end of the last block,
    and the CRC-32 the call stored, least significant byte first. *)
Theorem DataBlocks_layout df dataType confirm :
  knownDataType dataType →
  let c := userDataLength dataType confirm in
  ∃ df' blocks,
    DataBlocks df dataType confirm = Normal (df', (blocks, None))
    ∧ concat ((λ b, elems (DataBlock.Data b)) <$> blocks)
      = take (Z.to_nat (DataFragment.Stored df'))
             (elems (DataFragment.Data df))
        ++ replicate (Z.to_nat (DataFragment.Needed df' * c - 4
                                - DataFragment.Stored df')) 0
        ++ trailer (DataFragment.CRC df').
Proof.
  intros Hk c. rewrite DataBlocks_Normal by done. fold c.
  pose proof (userDataLength_blockCapacity dataType confirm Hk) as Hc.
  fold c in Hc. pose proof (blockCapacity_bounds c Hc) as Hcb.
  destruct (storedLength_range df) as [Hs _].
  set (stored := storedLength df) in *. set (needed := neededBlocks stored c).
  pose proof (neededBlocks_room stored c ltac:(lia) ltac:(lia)) as Hroom.
  pose proof (neededBlocks_pos stored c ltac:(lia) ltac:(lia)) as Hpos.
  fold needed in Hroom, Hpos.
  eexists _, _. split; [done|].
  cbn [DataFragment.Stored DataFragment.Needed DataFragment.CRC].
  unfold fragmentBlocks. fold stored needed.
  set (image := wireImage _ _ _ _ _).
  assert (length image = Z.to_nat (needed * c)) as Himage
    by (apply length_wireImage; nia).
  rewrite <- list_fmap_compose. unfold seqZ. rewrite <- list_fmap_compose.
  rewrite (list_fmap_ext _
             (λ i : nat, take (Z.to_nat c) (drop ((0 + i) * Z.to_nat c) image))
             (seq 0 (Z.to_nat needed)));
    [|intros i x _; simpl; do 2 f_equal; lia].
  rewrite concat_chunks. change (0 * Z.to_nat c)%nat with 0%nat.
  rewrite drop_0, take_ge by lia.
  subst image. unfold wireImage.
  rewrite paddedRegion_app by (unfold len in Hs; lia).
  by rewrite <- app_assoc.
Qed.

(** X10: block [i] carries the serial [i mod 128], so serials repeat from
    block 128 on; its CRC field is the CRC-9 of its serial and payload, and
    its [OK] flag is not set. *)
Theorem DataBlocks_block_fields df dataType confirm :
  knownDataType dataType →
  ∃ df' blocks,
    DataBlocks df dataType confirm = Normal (df', (blocks, None))
    ∧ ∀ (i : nat) b, blocks !! i = Some b →
        DataBlock.Serial b = Z.of_nat i `mod` 128
        ∧ DataBlock.CRC b
          = calculateCRC9 (DataBlock.Serial b) (DataBlock.Data b) dataType
        ∧ DataBlock.OK b = false.
Proof.
  intros Hk. rewrite DataBlocks_Normal by done.
  eexists _, _. split; [done|]. intros i b. unfold fragmentBlocks.
  rewrite list_lookup_fmap.
  destruct (seqZ _ _ !! i) as [j|] eqn:Hj; [|done].
  apply lookup_seqZ in Hj as [-> Hi]. intros [= <-].
  cbn [wireBlock DataBlock.Serial DataBlock.CRC DataBlock.OK DataBlock.Data].
  rewrite Z.add_0_l, Z.rem_mod_nonneg by lia.
  rewrite uint8_small by (pose proof (Z.mod_pos_bound (Z.of_nat i) 128); lia).
  done.
Qed.


(** A block of a wire image, encoded and parsed again. *)
Lemma wireBlock_parse_back (image : list Z) dataType confirm i needed :
  knownDataType dataType →
  let c := userDataLength dataType confirm in
  length image = Z.to_nat (needed * c) → 0 ≤ i < needed →
  let b := wireBlock image dataType c i in
  ∃ wire,
    DataBlock_Bytes b dataType confirm = Normal (b, wire)
    ∧ ParseDataBlock wire dataType confirm
      = Normal (Some (if confirm
                      then DataBlock.mk (DataBlock.Serial b) (DataBlock.CRC b)
                                        true (DataBlock.Data b)
                                        (DataBlock.Length b)
                      else DataBlock.mk 0 0 true (DataBlock.Data b)
                                        (DataBlock.Length b)),
                None).
Proof.
  intros Hk c Himage Hi b.
  destruct (dataBlockLengths_known dataType Hk) as (L & HL & Hsize & HuL).
  set (chunk := take (Z.to_nat c) (drop (Z.to_nat (i * c)) image)).
  assert (0 ≤ c) as Hc0 by (subst c; rewrite HuL; destruct confirm; lia).
  assert (length chunk = Z.to_nat c) as Hchunk.
  { apply (length_wireChunk image c i needed); [done|lia|done|nia]. }
  assert (0 ≤ i `rem` 128 < 128) as Hrem.
  { rewrite Z.rem_mod_nonneg by lia.
    pose proof (Z.mod_pos_bound i 128). lia. }
  destruct confirm.
  - rewrite DataBlock_Bytes_confirmed by done. cbv zeta.
    subst b. unfold wireBlock.
    cbn [DataBlock.Serial DataBlock.CRC DataBlock.OK DataBlock.Data
         DataBlock.Length elems].
    fold chunk. rewrite (uint8_small (i `rem` 128)) by lia.
    assert (c = L - 2) as HcL by (subst c; by rewrite HuL).
    rewrite (HuL false), <- HcL, Hchunk, Nat.sub_diag, take_ge, app_nil_r by lia.
    eexists. split; [reflexivity|].
    rewrite ParseDataBlock_wire_confirmed; [|done|done|fold c; lia].
    by fold c.
  - assert (c = L) as HcL by (subst c; by rewrite HuL).
    exists (DataBlock.Data b). split.
    + unfold DataBlock_Bytes. rewrite HL.
      change (default 0 (Some L)) with L. cbn [mret outcome_ret].
      rewrite copy_make by lia. subst b.
      cbn [wireBlock DataBlock.Data elems]. fold chunk.
      by rewrite <- HcL, Hchunk, Nat.sub_diag, take_ge, app_nil_r by lia.
    + unfold ParseDataBlock. fold c. rewrite (uint8_small c) by lia.
      subst b. cbn [wireBlock DataBlock.Data DataBlock.Length]. fold chunk.
      rewrite slice_whole by done. cbn [mbind outcome_bind].
      by rewrite copy_make_full by done.
Qed.

(** The parsed form of a block. *)
Lemma fragmentBlocks_parse_back df dataType confirm :
  knownDataType dataType →
  Forall
    (λ b, ∃ wire,
       DataBlock_Bytes b dataType confirm = Normal (b, wire)
       ∧ ParseDataBlock wire dataType confirm
         = Normal (Some (if confirm
                         then DataBlock.mk (DataBlock.Serial b)
                                           (DataBlock.CRC b) true
                                           (DataBlock.Data b)
                                           (DataBlock.Length b)
                         else DataBlock.mk 0 0 true (DataBlock.Data b)
                                           (DataBlock.Length b)),
                   None))
    (fragmentBlocks df dataType (userDataLength dataType confirm)).
Proof.
  intros Hk.
  pose proof (userDataLength_blockCapacity dataType confirm Hk) as Hc.
  pose proof (blockCapacity_bounds _ Hc) as Hcb.
  destruct (storedLength_range df) as [Hs _].
  set (c := userDataLength dataType confirm) in *.
  pose proof (neededBlocks_room (storedLength df) c ltac:(lia) ltac:(lia))
    as Hroom.
  unfold fragmentBlocks. apply Forall_fmap, Forall_forall. intros i Hi.
  apply elem_of_seqZ in Hi.
  apply (wireBlock_parse_back _ dataType confirm i
           (neededBlocks (storedLength df) c)); [done| |lia].
  apply length_wireImage. lia.
Qed.

(** X11: every block the fragmenter returns is accepted by the parser
    after a trip through its wire form: [Bytes] leaves the block as it is
    (its CRC-9 is already the one [Bytes] computes), and [ParseDataBlock]
    returns the block with [OK] set; an unconfirmed block comes back with
    serial 0 and CRC 0, as the wire form does not carry them. *)
Theorem DataBlocks_blocks_parse_back df dataType confirm :
  knownDataType dataType →
  ∃ df' blocks,
    DataBlocks df dataType confirm = Normal (df', (blocks, None))
    ∧ Forall
        (λ b, ∃ wire,
           DataBlock_Bytes b dataType confirm = Normal (b, wire)
           ∧ ParseDataBlock wire dataType confirm
             = Normal (Some (if confirm
                             then DataBlock.mk (DataBlock.Serial b)
                                               (DataBlock.CRC b) true
                                               (DataBlock.Data b)
                                               (DataBlock.Length b)
                             else DataBlock.mk 0 0 true (DataBlock.Data b)
                                               (DataBlock.Length b)),
                       None))
        blocks.
Proof.
  intros Hk. rewrite DataBlocks_Normal by done.
  eexists _, _. split; [done|]. by apply fragmentBlocks_parse_back.
Qed.

End fragmenter.

(** ** The reassembler *)

Section reassembler.
Context `{Externals}.

(** The loop reads the payload and the length of a block, nothing else. *)
Lemma combineBlock_ext n f i b b' :
  DataBlock.Data b = DataBlock.Data b' →
  DataBlock.Length b = DataBlock.Length b' →
  combineBlock n f i b = combineBlock n f i b'.
Proof. intros Hd Hl. unfold combineBlock. by rewrite Hd, Hl. Qed.

Lemma combineLoop_ext n blocks blocks' : ∀ f i,
  Forall2 (λ b b', DataBlock.Data b = DataBlock.Data b'
                   ∧ DataBlock.Length b = DataBlock.Length b')
          blocks blocks' →
  combineLoop n f i blocks = combineLoop n f i blocks'.
Proof.
  intros f i Hall. revert f i.
  induction Hall as [|b b' blocks blocks' [Hd Hl] _ IH]; intros f i; [done|].
  cbn [combineLoop]. rewrite (combineBlock_ext n f i b b') by done.
  destruct (combineBlock n f i b') as [f'|]; [|done].
  cbn [mbind outcome_bind]. apply IH.
Qed.

(** X12: the reassembler never looks at the serial, the CRC-9 or the [OK]
    flag of a block: two sequences of blocks with the same payloads and
    lengths give the same result, so blocks that are out of order,
    repeated or failed their own check are not noticed here. *)
Theorem CombineDataBlocks_reads_payload_and_length blocks blocks' :
  Forall2 (λ b b', DataBlock.Data b = DataBlock.Data b'
                   ∧ DataBlock.Length b = DataBlock.Length b')
          blocks blocks' →
  CombineDataBlocks blocks = CombineDataBlocks blocks'.
Proof.
  intros Hall. unfold CombineDataBlocks.
  rewrite (Forall2_length _ _ _ Hall).
  rewrite (combineLoop_ext _ blocks blocks') by done.
  destruct Hall; [done|]. by rewrite !decide_False by done.
Qed.

(** The loop body: what a step that returns leaves behind. *)
Lemma combineBlock_frame n f i block f' :
  combineBlock n f i block = Normal f' →
  len (DataFragment.Data f') = len (DataFragment.Data f)
  ∧ DataFragment.Needed f' = DataFragment.Needed f
  ∧ (DataFragment.Stored f' = DataFragment.Stored f
     ∨ (DataFragment.Stored f'
        = DataFragment.Stored f + DataBlock.Length block
        ∧ (i < n - 1 → DataFragment.Stored f' < len (DataFragment.Data f))
        ∧ (¬ i < n - 1 →
           DataFragment.Stored f' - 4 < len (DataFragment.Data f)))).
Proof.
  unfold combineBlock, mret, outcome_ret.
  assert (∀ g g',
    (src ← slice (DataBlock.Data block) 0 (DataBlock.Length block);
     data ← copy_at (DataFragment.Data g) (DataFragment.Stored g) src;
     Normal (DataFragment.mk data
               (DataFragment.Stored g + DataBlock.Length block)
               (DataFragment.Needed g) (DataFragment.CRC g))) = Normal g' →
    len (DataFragment.Data g') = len (DataFragment.Data g)
    ∧ DataFragment.Needed g' = DataFragment.Needed g
    ∧ DataFragment.Stored g'
      = DataFragment.Stored g + DataBlock.Length block) as Happend.
  { intros g g'. destruct (slice _ _ _) as [src|]; [|done].
    cbn [mbind outcome_bind]. unfold copy_at.
    destruct (decide _); [|done]. intros [= <-].
    unfold len. cbn [DataFragment.Data DataFragment.Stored
                     DataFragment.Needed elems].
    by rewrite length_inserts. }
  destruct (decide (DataBlock.Length block = 0)).
  { intros [= <-]. repeat split; auto. }
  destruct (decide (i < n - 1)) as [Hi|Hi].
  - destruct (decide (_ < _)) as [Hfit|].
    + intros Hf'. apply Happend in Hf' as (? & ? & ?).
      repeat split; [done..|]. right. repeat split; [done|lia|done].
    + intros [= <-]. repeat split; auto.
  - destruct (decide (_ < _)) as [Hfit|].
    + destruct (_ ← slice _ _ _; _) as [g|] eqn:Hg; [|done].
      apply Happend in Hg as (? & ? & ?). cbn [mbind outcome_bind].
      do 4 destruct (index _ _); cbn [mbind outcome_bind]; try done.
      intros [= <-].
      cbn [DataFragment.Data DataFragment.Stored DataFragment.Needed].
      repeat split; [done..|]. right. repeat split; [done|done|lia].
    + cbn [mbind outcome_bind mret outcome_ret].
      do 4 destruct (index _ _); cbn [mbind outcome_bind]; try done.
      intros [= <-].
      cbn [DataFragment.Data DataFragment.Stored DataFragment.Needed].
      repeat split; auto.
Qed.

Lemma combineLoop_bounds n blocks : ∀ f i f',
  Forall (λ b, 0 ≤ DataBlock.Length b) blocks →
  i + Z.of_nat (length blocks) = n →
  0 ≤ DataFragment.Stored f < len (DataFragment.Data f) →
  combineLoop n f i blocks = Normal f' →
  len (DataFragment.Data f') = len (DataFragment.Data f)
  ∧ DataFragment.Needed f' = DataFragment.Needed f
  ∧ 0 ≤ DataFragment.Stored f' < len (DataFragment.Data f) + 4.
Proof.
  induction blocks as [|block blocks IH]; intros f i f' Hall Hn Hst.
  { intros [= <-]. repeat split; lia. }
  apply Forall_cons in Hall as [Hlen Hall]. cbn [combineLoop].
  destruct (combineBlock n f i block) as [g|] eqn:Hg; [|done].
  cbn [mbind outcome_bind]. intros Hloop.
  destruct (combineBlock_frame n f i block g Hg) as (Hd & Hneeded & Hstored).
  destruct blocks as [|block' blocks].
  - injection Hloop as <-. rewrite Hd, Hneeded.
    destruct (decide (i < n - 1)); repeat split; lia.
  - assert (i < n - 1) as Hi by (cbn [length] in Hn; lia).
    apply IH in Hloop as (Hd' & Hneeded' & Hst'); [| |cbn [length] in *; lia|];
      [|done|lia].
    rewrite Hd', Hneeded', Hd, Hneeded. rewrite Hd in Hst'. repeat split; lia.
Qed.

(** X13: a fragment returned by the reassembler holds a buffer of exactly
    1500 bytes, whatever was stored (the buffer is not cut to [Stored]);
    [Stored] is at most 1503, as the final block may run up to three
    bytes past the end of the buffer; and [Needed] is left at zero. *)
Theorem CombineDataBlocks_result_bounds blocks f :
  Forall (λ b, 0 ≤ DataBlock.Length b) blocks →
  CombineDataBlocks blocks = Normal (Some f, None) →
  len (DataFragment.Data f) = MaxPacketFragmentSize
  ∧ 0 ≤ DataFragment.Stored f ≤ MaxPacketFragmentSize + 3
  ∧ DataFragment.Needed f = 0.
Proof.
  intros Hall. unfold CombineDataBlocks.
  destruct (decide (blocks = [])); [done|].
  destruct (combineLoop _ _ _ _) as [g|] eqn:Hg; [|done].
  cbn [mbind outcome_bind].
  destruct (combinedCRC32 _ _) as [crc|]; [|done]. cbn [mbind outcome_bind].
  destruct (decide _); [done|]. intros [= <-].
  apply combineLoop_bounds in Hg as (Hd & Hneeded & Hst); [|done|lia|].
  - rewrite Hd, Hneeded. cbn [DataFragment.Data DataFragment.Needed] in *.
    rewrite len_make in * by (unfold MaxPacketFragmentSize; lia).
    unfold MaxPacketFragmentSize in *. lia.
  - cbn [DataFragment.Data DataFragment.Stored].
    rewrite len_make; unfold MaxPacketFragmentSize; lia.
Qed.


(** Reslicing a slice to its own length. *)
Lemma slice_len d n :
  len d = n → slice d 0 n = Normal (Bytes (elems d) (spare d)).
Proof.
  intros Hn. unfold slice, len, cap in *.
  rewrite decide_True by (rewrite length_app; lia).
  change (Z.to_nat 0) with 0%nat. rewrite drop_0, Z.sub_0_r.
  replace (Z.to_nat n) with (length (elems d)) by lia.
  by rewrite take_app_length, drop_app_length.
Qed.

Lemma combineLoop_concat n last init : ∀ f i,
  let blocks := init ++ [last] in
  let payload := concat ((λ b, elems (DataBlock.Data b)) <$> blocks) in
  Forall (λ b, 0 < DataBlock.Length b
               ∧ len (DataBlock.Data b) = DataBlock.Length b) blocks →
  4 ≤ DataBlock.Length last ≤ 255 →
  i + Z.of_nat (length init) + 1 = n →
  0 ≤ DataFragment.Stored f →
  DataFragment.Stored f + Z.of_nat (length payload) - 4
    < len (DataFragment.Data f) →
  combineLoop n f i blocks
  = Normal (DataFragment.mk
              (Bytes (list_inserts (Z.to_nat (DataFragment.Stored f)) payload
                                   (elems (DataFragment.Data f)))
                     (spare (DataFragment.Data f)))
              (DataFragment.Stored f + Z.of_nat (length payload))
              (DataFragment.Needed f) (storedCRC32 last)).
Proof.
  induction init as [|b init IH]; intros f i blocks payload Hall Hlast Hn Hst Hfit.
  - subst blocks payload. cbn [app fmap list_fmap concat length] in *.
    rewrite app_nil_r in *. apply Forall_singleton in Hall as [Hpos Hlen].
    assert (Z.of_nat (length (elems (DataBlock.Data last)))
            = DataBlock.Length last) as Hlen' by done.
    cbn [combineLoop]. unfold combineBlock.
    rewrite decide_False by lia. rewrite decide_False by lia.
    rewrite decide_True by lia.
    rewrite slice_len by done. cbn [mbind outcome_bind].
    rewrite copy_at_Normal by lia.
    cbn [mbind outcome_bind mret outcome_ret DataFragment.Data
         DataFragment.Stored DataFragment.Needed elems].
    rewrite (uint8_small (DataBlock.Length last - 4)),
      (uint8_small (DataBlock.Length last - 3)),
      (uint8_small (DataBlock.Length last - 2)),
      (uint8_small (DataBlock.Length last - 1)) by lia.
    rewrite !index_Normal by lia. cbn [mbind outcome_bind].
    by rewrite Hlen'.
  - subst blocks payload. cbn [app fmap list_fmap concat] in *.
    apply Forall_cons in Hall as [[Hpos Hlen] Hall].
    set (rest := concat ((λ b, elems (DataBlock.Data b)) <$> init ++ [last]))
      in *.
    assert (Z.of_nat (length (elems (DataBlock.Data b)))
            = DataBlock.Length b) as Hlen' by done.
    assert (4 ≤ Z.of_nat (length rest)) as Hrest.
    { subst rest. rewrite fmap_app, concat_app, length_app.
      cbn [fmap list_fmap concat]. rewrite app_nil_r.
      apply Forall_app in Hall as [_ Hl].
      apply Forall_singleton in Hl as [_ Hl]. unfold len in Hl. lia. }
    rewrite length_app in Hfit. cbn [length] in Hn.
    cbn [combineLoop]. unfold combineBlock at 1.
    rewrite decide_False by lia. rewrite decide_True by lia.
    rewrite decide_True by lia.
    rewrite slice_len by done. cbn [mbind outcome_bind].
    rewrite copy_at_Normal by lia.
    cbn [mbind outcome_bind mret outcome_ret].
    rewrite IH; [|done..| | |]; cycle 1.
    { lia. }
    { cbn [DataFragment.Stored]. lia. }
    { cbn [DataFragment.Stored DataFragment.Data]. unfold len in *.
      cbn [elems]. rewrite length_inserts. fold rest. lia. }
    cbn [DataFragment.Data DataFragment.Stored DataFragment.Needed elems spare].
    fold rest. rewrite length_app, list_inserts_app_l.
    do 2 f_equal; [|lia]. do 2 f_equal. lia.
Qed.

(** X14: the reassembler on well-formed blocks that fit. For blocks of
    non-zero length whose payloads have that length, the last of at least
    four bytes, and a total length of at most 1503: the buffer receives the
    payloads one after the other, [Stored] is the total length, the CRC
    field is read from the last four bytes of the last block (least
    significant first), and the call returns this fragment when the CRC-32
    over the swapped pairs before [Stored - 4] equals it, and the fragment
    CRC error with both values otherwise. *)
Theorem CombineDataBlocks_concat init last :
  let blocks := init ++ [last] in
  let payload := concat ((λ b, elems (DataBlock.Data b)) <$> blocks) in
  let total := Z.of_nat (length payload) in
  Forall (λ b, 0 < DataBlock.Length b
               ∧ len (DataBlock.Data b) = DataBlock.Length b) blocks →
  4 ≤ DataBlock.Length last ≤ 255 →
  total - 4 < MaxPacketFragmentSize →
  let buffer :=
    list_inserts 0 payload (replicate (Z.to_nat MaxPacketFragmentSize) 0) in
  let crc :=
    crc32end
      (foldl (λ crc i, crc32 (crc32 crc (byteAt buffer (Z.to_nat (i + 1))))
                             (byteAt buffer (Z.to_nat i)))
             0 (pair_offsets (total - 4))) in
  CombineDataBlocks blocks
  = Normal (if decide (crc ≠ storedCRC32 last)
            then (None, Some (FragmentCRCError crc (storedCRC32 last)))
            else (Some (DataFragment.mk (Bytes buffer []) total 0
                                        (storedCRC32 last)),
                  None)).
Proof.
  intros blocks payload total Hall Hlast Hfit buffer crc.
  unfold CombineDataBlocks.
  rewrite decide_False by (subst blocks; by destruct init).
  pose proof (combineLoop_concat (Z.of_nat (length blocks)) last init
                (DataFragment.mk (make MaxPacketFragmentSize) 0 0 0) 0)
    as Hloop.
  cbv zeta in Hloop. fold blocks in Hloop. fold payload in Hloop.
  rewrite Hloop; [|done..| | |]; cycle 1.
  { subst blocks. rewrite length_app. simpl. lia. }
  { done. }
  { cbn [DataFragment.Stored DataFragment.Data]. fold total.
    rewrite len_make; unfold MaxPacketFragmentSize in *; lia. }
  cbn [mbind outcome_bind DataFragment.Stored DataFragment.Data
       DataFragment.Needed DataFragment.CRC make elems spare].
  change (Z.to_nat 0) with 0%nat. fold buffer. rewrite Z.add_0_l. fold total.
  unfold combinedCRC32. rewrite combinedCRC32_offsets; cycle 1.
  { unfold pair_offsets. apply Forall_fmap, Forall_forall. intros k Hk.
    apply elem_of_seqZ in Hk. unfold len. subst buffer. cbn [elems].
    rewrite length_inserts, length_replicate.
    unfold MaxPacketFragmentSize in *. simpl.
    assert ((total - 4 + 1) `div` 2 * 2 ≤ total - 4 + 1)
      by (pose proof (Z.div_mod (total - 4 + 1) 2 ltac:(lia));
          pose proof (Z.mod_pos_bound (total - 4 + 1) 2 ltac:(lia)); lia).
    lia. }
  cbn [mbind outcome_bind elems]. fold crc.
  by destruct (decide (crc ≠ storedCRC32 last)).
Qed.

(** The loop compares the index of a block with the number of blocks only
    to tell the final block from the others. *)
Lemma combineBlock_shift k n f i block :
  combineBlock (n + k) f (i + k) block = combineBlock n f i block.
Proof.
  unfold combineBlock.
  destruct (decide (i < n - 1));
    [rewrite (decide_True (P := i + k < n + k - 1)) by lia
    |rewrite (decide_False (P := i + k < n + k - 1)) by lia]; done.
Qed.

Lemma combineLoop_shift k n blocks : ∀ f i,
  combineLoop (n + k) f (i + k) blocks = combineLoop n f i blocks.
Proof.
  induction blocks as [|block blocks IH]; intros f i; [done|].
  cbn [combineLoop]. rewrite combineBlock_shift.
  destruct (combineBlock n f i block) as [g|]; [|done].
  cbn [mbind outcome_bind]. replace (i + k + 1) with (i + 1 + k) by lia.
  apply IH.
Qed.

Lemma combineLoop_not_final n n' blocks : ∀ f i,
  i + Z.of_nat (length blocks) < n → i + Z.of_nat (length blocks) < n' →
  combineLoop n f i blocks = combineLoop n' f i blocks.
Proof.
  induction blocks as [|block blocks IH]; intros f i Hn Hn'; [done|].
  cbn [combineLoop length] in *.
  assert (combineBlock n f i block = combineBlock n' f i block) as ->.
  { unfold combineBlock. by rewrite !(decide_True (P := i < _ - 1)) by lia. }
  destruct (combineBlock n' f i block) as [g|]; [|done].
  cbn [mbind outcome_bind]. apply IH; lia.
Qed.

Lemma combineLoop_app n l1 l2 : ∀ f i,
  combineLoop n f i (l1 ++ l2)
  = f' ← combineLoop n f i l1; combineLoop n f' (i + Z.of_nat (length l1)) l2.
Proof.
  induction l1 as [|block l1 IH]; intros f i.
  { cbn [app combineLoop length mbind outcome_bind mret outcome_ret].
    by rewrite Z.add_0_r. }
  cbn [app combineLoop length].
  destruct (combineBlock n f i block) as [g|]; [|done].
  cbn [mbind outcome_bind]. rewrite IH.
  by replace (i + 1 + Z.of_nat (length l1))
    with (i + Z.of_nat (S (length l1))) by lia.
Qed.

(** X15: a block of length zero that is not the last one is skipped:
    the result is the one for the sequence without it. *)
Theorem CombineDataBlocks_skips_empty_block l1 block l2 :
  DataBlock.Length block = 0 → l2 ≠ [] →
  CombineDataBlocks (l1 ++ block :: l2) = CombineDataBlocks (l1 ++ l2).
Proof.
  intros Hlen Hl2. unfold CombineDataBlocks.
  assert (0 < length l2)%nat as Hlen2 by (destruct l2; [done|simpl; lia]).
  rewrite !decide_False by (intros Heq; apply (f_equal length) in Heq;
                            rewrite length_app in Heq; simpl in Heq; lia).
  rewrite !length_app. cbn [length].
  set (f0 := DataFragment.mk (make MaxPacketFragmentSize) 0 0 0).
  set (n := Z.of_nat (length l1 + length l2)).
  replace (Z.of_nat (length l1 + S (length l2))) with (n + 1) by lia.
  assert (combineLoop (n + 1) f0 0 (l1 ++ block :: l2)
          = combineLoop n f0 0 (l1 ++ l2)) as ->; [|done].
  rewrite !combineLoop_app.
  rewrite (combineLoop_not_final (n + 1) n l1) by lia.
  destruct (combineLoop n f0 0 l1) as [g|]; [|done].
  cbn [mbind outcome_bind combineLoop].
  unfold combineBlock at 1. rewrite decide_True by done.
  cbn [mbind outcome_bind mret outcome_ret].
  apply combineLoop_shift.
Qed.

(** X16: a single block of one to three bytes makes the reassembler
    panic: the index of the first trailer byte, [Length - 4], is computed
    in [uint8] and wraps to [Length + 252], past the end of the payload. *)
Theorem CombineDataBlocks_short_final_block_panics block :
  1 ≤ DataBlock.Length block ≤ 3 →
  DataBlock.Length block ≤ cap (DataBlock.Data block) →
  len (DataBlock.Data block) ≤ DataBlock.Length block + 252 →
  CombineDataBlocks [block]
  = Panics (IndexOutOfRange (DataBlock.Length block + 252)
                            (len (DataBlock.Data block))).
Proof.
  intros Hlen Hcap Hdata. unfold CombineDataBlocks.
  rewrite decide_False by done. cbn [length combineLoop].
  unfold combineBlock. cbn [DataFragment.Data DataFragment.Stored].
  rewrite decide_False by lia. rewrite decide_False by lia.
  rewrite len_make by (unfold MaxPacketFragmentSize; lia).
  rewrite decide_True by (unfold MaxPacketFragmentSize; lia).
  unfold slice. rewrite decide_True by lia. cbn [mbind outcome_bind].
  rewrite copy_at_Normal
    by (rewrite len_make; unfold MaxPacketFragmentSize; lia).
  cbn [mbind outcome_bind mret outcome_ret DataFragment.Data].
  assert (uint8 (DataBlock.Length block - 4) = DataBlock.Length block + 252)
    as ->.
  { unfold uint8. change (2 ^ 8) with 256. symmetry.
    apply (Z.mod_unique_pos _ _ (-1)); lia. }
  by rewrite (index_Panics (DataBlock.Data block)
                (DataBlock.Length block + 252)) by lia.
Qed.

End reassembler.

(** ** From a fragment to the wire and back *)

Section wire.
Context `{Externals}.

(** X17: fragmenting, encoding every block with [Bytes], parsing every
    wire form with [ParseDataBlock] and reassembling the parsed blocks
    gives the stored bytes back, followed by the zero padding, when the CRC
    field is zero on entry and the padded region fits the buffer of the
    reassembler; [Stored] then counts whole blocks, and the CRC-32 is the
    one the fragmenter stored. *)
Theorem fragment_wire_roundtrip df dataType confirm :
  knownDataType dataType →
  DataFragment.CRC df = 0 →
  let c := userDataLength dataType confirm in
  let stored := Z.min (len (DataFragment.Data df)) MaxPacketFragmentSize in
  let needed := neededBlocks stored c in
  needed * c - 4 < MaxPacketFragmentSize →
  ∃ df' blocks parsed f,
    DataBlocks df dataType confirm = Normal (df', (blocks, None))
    ∧ Forall2
        (λ b p, ∃ wire,
           DataBlock_Bytes b dataType confirm = Normal (b, wire)
           ∧ ParseDataBlock wire dataType confirm = Normal (Some p, None))
        blocks parsed
    ∧ CombineDataBlocks parsed = Normal (Some f, None)
    ∧ take (Z.to_nat (needed * c - 4)) (elems (DataFragment.Data f))
      = take (Z.to_nat stored) (elems (DataFragment.Data df))
        ++ replicate (Z.to_nat (needed * c - 4 - stored)) 0
    ∧ DataFragment.Stored f = needed * c
    ∧ DataFragment.CRC f = DataFragment.CRC df'.
Proof.
  intros Hk Hcrc0 c stored needed Hfit.
  pose proof (userDataLength_blockCapacity dataType confirm Hk) as Hc.
  fold c in Hc. pose proof (blockCapacity_bounds c Hc) as Hcb.
  destruct (storedLength_range df) as [Hs _].
  change (storedLength df) with stored in Hs.
  pose proof (neededBlocks_room stored c ltac:(lia) ltac:(lia)) as Hroom.
  fold needed in Hroom.
  set (blocks := fragmentBlocks df dataType c).
  set (parse := λ b,
         if confirm
         then DataBlock.mk (DataBlock.Serial b) (DataBlock.CRC b) true
                           (DataBlock.Data b) (DataBlock.Length b)
         else DataBlock.mk 0 0 true (DataBlock.Data b) (DataBlock.Length b)).
  pose proof (CombineDataBlocks_fragmentBlocks df dataType confirm Hk Hcrc0)
    as Hcomb.
  cbv zeta in Hcomb. fold c blocks in Hcomb.
  change (storedLength df) with stored in Hcomb. fold needed in Hcomb.
  specialize (Hcomb Hfit).
  assert (CombineDataBlocks (parse <$> blocks) = CombineDataBlocks blocks)
    as Hparsed.
  { unfold CombineDataBlocks. rewrite length_fmap.
    rewrite (combineLoop_ext _ (parse <$> blocks) blocks).
    - destruct blocks; [done|]. by rewrite !decide_False by done.
    - apply Forall2_fmap_l, Forall_Forall2_diag, Forall_forall.
      intros b _. unfold parse. by destruct confirm. }
  rewrite DataBlocks_Normal by done. fold c blocks.
  eexists _, _, (parse <$> blocks), _. split; [done|].
  split.
  { apply Forall2_fmap_r, Forall_Forall2_diag.
    eapply Forall_impl; [by apply fragmentBlocks_parse_back|].
    intros b (wire & Hb & Hp). by exists wire. }
  split; [by rewrite Hparsed|].
  cbn [DataFragment.Data DataFragment.Stored DataFragment.CRC elems].
  split; [|done].
  rewrite take_inserts_wireImage
    by (unfold MaxPacketFragmentSize in *; lia).
  apply paddedRegion_app; unfold len in *; lia.
Qed.

(** When every block has the capacity [c] and the blocks exceed the
    buffer by four bytes or more, the loop cannot store them all. *)
Lemma combineLoop_Stored_short c n blocks : ∀ f i f',
  0 < c → Forall (λ b, DataBlock.Length b = c) blocks → blocks ≠ [] →
  i + Z.of_nat (length blocks) = n →
  DataFragment.Stored f ≤ i * c →
  len (DataFragment.Data f) ≤ n * c - 4 →
  combineLoop n f i blocks = Normal f' →
  DataFragment.Stored f' < n * c.
Proof.
  induction blocks as [|block blocks IH]; intros f i f' Hc Hall Hne Hn Hst Hbuf;
    [done|].
  apply Forall_cons in Hall as [Hlen Hall]. cbn [combineLoop].
  destruct (combineBlock n f i block) as [g|] eqn:Hg; [|done].
  cbn [mbind outcome_bind]. intros Hloop.
  destruct (combineBlock_frame n f i block g Hg) as (Hd & _ & Hstored).
  rewrite Hlen in Hstored.
  destruct blocks as [|block' blocks].
  - injection Hloop as <-. cbn [length] in Hn.
    assert (¬ i < n - 1) by lia. nia.
  - apply (IH g (i + 1)) in Hloop; [done..| |cbn [length] in *; lia| |lia].
    + done.
    + nia.
Qed.

(** X18: the bound of the round trip is sharp. When the padded region
    reaches the end of the 1500-byte buffer ([Needed * blockCap - 4 >=
    1500], payloads of 1485 bytes or more), the reassembler cannot store
    every block: whatever fragment it returns has [Stored] below
    [Needed * blockCap], so a block has been dropped. *)
Theorem CombineDataBlocks_drops_a_block df dataType confirm :
  knownDataType dataType →
  let c := userDataLength dataType confirm in
  let stored := Z.min (len (DataFragment.Data df)) MaxPacketFragmentSize in
  let needed := neededBlocks stored c in
  MaxPacketFragmentSize ≤ needed * c - 4 →
  ∃ df' blocks,
    DataBlocks df dataType confirm = Normal (df', (blocks, None))
    ∧ ∀ f, CombineDataBlocks blocks = Normal (Some f, None) →
           DataFragment.Stored f < needed * c.
Proof.
  intros Hk c stored needed Hbig.
  pose proof (userDataLength_blockCapacity dataType confirm Hk) as Hc.
  fold c in Hc. pose proof (blockCapacity_bounds c Hc) as Hcb.
  rewrite DataBlocks_Normal by done. fold c.
  eexists _, _. split; [done|]. intros f.
  set (blocks := fragmentBlocks df dataType c).
  assert (Z.of_nat (length blocks) = needed) as Hlen.
  { subst blocks. unfold fragmentBlocks. rewrite length_fmap, length_seqZ.
    change (storedLength df) with stored. fold needed.
    unfold MaxPacketFragmentSize in Hbig. nia. }
  assert (Forall (λ b, DataBlock.Length b = c) blocks) as Hall.
  { subst blocks. unfold fragmentBlocks. by apply Forall_fmap, Forall_forall. }
  unfold CombineDataBlocks.
  destruct (decide (blocks = [])) as [|Hne]; [done|].
  destruct (combineLoop _ _ _ _) as [g|] eqn:Hg; [|done].
  cbn [mbind outcome_bind].
  destruct (combinedCRC32 _ _) as [crc|]; [|done]. cbn [mbind outcome_bind].
  destruct (decide _); [done|]. intros [= <-].
  apply (combineLoop_Stored_short c) in Hg; [by rewrite <- Hlen|lia|done..| |].
  - cbn [DataFragment.Stored]. lia.
  - cbn [DataFragment.Data]. rewrite len_make, Hlen; [done|].
    unfold MaxPacketFragmentSize. lia.
Qed.

End wire.

(** ** Text messages *)

Lemma IndexByte_range b c : -1 ≤ IndexByte b c < Z.of_nat (length b).
Proof.
  induction b as [|x b IH]; [simpl; lia|]. cbn [IndexByte length].
  repeat case_decide; lia.
Qed.

Lemma IndexByte_not_found b c : IndexByte b c < 0 ↔ c ∉ b.
Proof.
  induction b as [|x b IH]; cbn [IndexByte].
  { split; [intros _; apply not_elem_of_nil|lia]. }
  pose proof (IndexByte_range b c) as Hrange. rewrite not_elem_of_cons.
  destruct (decide (x = c)) as [Hx|Hx].
  { split; [lia|]. intros [Hne _]. by destruct Hne. }
  destruct (decide (IndexByte b c < 0)) as [Hb|Hb].
  - split; [intros _; split; [done|by apply IH]|lia].
  - split; [lia|]. intros [_ Hnot]. apply IH in Hnot. lia.
Qed.

Lemma IndexByte_found b c :
  0 ≤ IndexByte b c →
  ∃ rest, b = take (Z.to_nat (IndexByte b c)) b ++ c :: rest
          ∧ c ∉ take (Z.to_nat (IndexByte b c)) b.
Proof.
  induction b as [|x b IH]; cbn [IndexByte]; [lia|].
  pose proof (IndexByte_range b c).
  repeat case_decide; try lia.
  - intros _. subst x. exists b. split; [done|apply not_elem_of_nil].
  - intros _. destruct IH as (rest & Hb & Hnot); [lia|].
    replace (Z.to_nat (IndexByte b c + 1)) with (S (Z.to_nat (IndexByte b c)))
      by lia.
    exists rest. cbn [take app]. split; [by rewrite <- Hb|].
    by apply not_elem_of_cons.
Qed.

Section messages.
Context {E : Type} (encodingMap : gmap Z (Encoding E)).

(** X19: a message parsed as null terminated never holds a zero byte: it
    is the decoded text up to its first zero byte, or all of it when there
    is none. *)
Theorem ParseMessageData_null_terminated data ddFormat e str :
  encodingMap !! ddFormat = Some e →
  decoderBytes e data = inl str →
  ∃ msg,
    ParseMessageData encodingMap data ddFormat true = (msg, None)
    ∧ (0 ∉ msg)
    ∧ (((0 ∉ str) ∧ msg = str) ∨ ∃ rest, str = msg ++ 0 :: rest).
Proof.
  intros He Hstr. unfold ParseMessageData. rewrite He, Hstr. cbv zeta.
  destruct (decide (IndexByte str 0 >= 0)) as [Hidx|Hidx].
  - destruct (IndexByte_found str 0) as (rest & Hrest & Hnot); [lia|].
    eexists. split; [done|]. split; [done|]. right. by exists rest.
  - assert (0 ∉ str) by (apply IndexByte_not_found; lia).
    exists str. split; [done|]. split; [done|]. by left.
Qed.

(** X20: a text without zero bytes survives [BuildMessageData] and
    [ParseMessageData] with null termination, for an encoding that encodes
    the text and decodes the encoded bytes followed by the two zero bytes
    of the terminator to the text followed by a zero byte. *)
Theorem BuildMessageData_ParseMessageData msg ddFormat e data rest :
  encodingMap !! ddFormat = Some e →
  encoderBytes e msg = inl data →
  decoderBytes e (data ++ [0; 0]) = inl (msg ++ 0 :: rest) →
  0 ∉ msg →
  BuildMessageData encodingMap msg ddFormat true
  = (Some (data ++ [0; 0]), None)
  ∧ ParseMessageData encodingMap (data ++ [0; 0]) ddFormat true
    = (msg, None).
Proof.
  intros He Henc Hdec Hmsg. split.
  { unfold BuildMessageData. by rewrite He, Henc. }
  unfold ParseMessageData. rewrite He, Hdec. cbv zeta.
  set (str := msg ++ 0 :: rest).
  assert (0 ∈ str) as Hin by (subst str; set_solver).
  destruct (decide (IndexByte str 0 >= 0)) as [Hidx|Hidx]; cycle 1.
  { exfalso. by apply (IndexByte_not_found str 0); [lia|]. }
  destruct (IndexByte_found str 0) as (rest' & Hrest & Hnot); [lia|].
  f_equal. set (found := take _ str) in *.
  assert (length found = length msg) as Hlen.
  { destruct (Nat.lt_trichotomy (length found) (length msg))
      as [Hlt|[Heq|Hgt]]; [exfalso|done|exfalso].
    - apply Hmsg. apply (f_equal (λ l, l !! length found)) in Hrest.
      subst str. rewrite lookup_app_l in Hrest by done.
      rewrite list_lookup_middle in Hrest by done.
      by apply list_elem_of_lookup_2 in Hrest.
    - apply Hnot. apply (f_equal (λ l, l !! length msg)) in Hrest.
      subst str. rewrite list_lookup_middle in Hrest by done.
      rewrite lookup_app_l in Hrest by done.
      symmetry in Hrest. by apply list_elem_of_lookup_2 in Hrest. }
  apply (f_equal (take (length msg))) in Hrest. subst str.
  rewrite take_app_length in Hrest.
  rewrite <- Hlen in Hrest. by rewrite take_app_length in Hrest.
Qed.

End messages.

(** * Further runs on the reference instance *)

(** A confirmed rate 1/2 block with serial 5 and ten payload bytes. *)
Lemma Bytes_ParseDataBlock_confirmed_witness :
  let db := DataBlock.mk 5 0 false (Bytes (replicate 10 7) []) 10 in
  let dataType := Reference.Rate12Data in
  let crc :=
    calculateCRC9 (DataBlock.Serial db) (DataBlock.Data db) dataType in
  (knownDataType dataType
   ∧ 0 ≤ DataBlock.Serial db < 128
   ∧ len (DataBlock.Data db) = userDataLength dataType true)
  ∧ ∃ db' wire,
      DataBlock_Bytes db dataType true = Normal (db', wire)
      ∧ db' = DataBlock.mk (DataBlock.Serial db) crc (DataBlock.OK db)
                           (DataBlock.Data db) (DataBlock.Length db)
      ∧ len wire = userDataLength dataType false
      ∧ ParseDataBlock wire dataType true
        = Normal (Some (DataBlock.mk (DataBlock.Serial db) crc true
                                     (Bytes (elems (DataBlock.Data db)) [])
                                     (userDataLength dataType true)),
                  None).
Proof.
  intros db dataType crc.
  assert (knownDataType dataType) as Hk by (left; reflexivity).
  assert (0 ≤ DataBlock.Serial db < 128) as Hserial
    by (split; [vm_compute; discriminate|vm_compute; reflexivity]).
  assert (len (DataBlock.Data db) = userDataLength dataType true) as Hlen
    by (vm_compute; reflexivity).
  split; [exact (conj Hk (conj Hserial Hlen))|].
  exact (Bytes_ParseDataBlock_confirmed db dataType Hk Hserial Hlen).
Defined.

(** The data type 99 is not in the table. *)
Lemma Bytes_unknown_type_witness :
  let db := DataBlock.mk 5 0 false (Bytes (replicate 10 7) []) 10 in
  let dataType := 99 in
  ¬ knownDataType dataType
  ∧ DataBlock_Bytes db dataType true = Panics (IndexOutOfRange 0 0).
Proof.
  intros db dataType.
  assert (¬ knownDataType dataType) as Hk
    by (intros [Hk|[Hk|Hk]]; vm_compute in Hk; discriminate).
  split; [assumption|].
  exact (Bytes_unknown_type_panics db dataType Hk).
Defined.

(** A buffer of three bytes with capacity twelve, parsed as an
    unconfirmed rate 1/2 block. *)
Lemma ParseDataBlock_unconfirmed_witness :
  let data := Bytes [1; 2; 3] (replicate 9 4) in
  let dataType := Reference.Rate12Data in
  let size := userDataLength dataType false in
  size ≤ cap data
  ∧ ParseDataBlock data dataType false
    = Normal
        (Some (DataBlock.mk 0 0 true
                 (Bytes (take (Z.to_nat size) (elems data ++ spare data)) [])
                 size),
         None).
Proof.
  intros data dataType size.
  assert (size ≤ cap data) as Hcap by (vm_compute; discriminate).
  split; [assumption|].
  exact (ParseDataBlock_unconfirmed data dataType Hcap).
Defined.

(** The number of blocks for the payload [1; 2; 3]. *)
Lemma DataBlocks_Needed_least_witness :
  let df := DataFragment.mk (Bytes [1; 2; 3] []) 0 0 0 in
  let dataType := Reference.Rate12Data in
  let confirm := true in
  let c := userDataLength dataType confirm in
  knownDataType dataType
  ∧ ∃ df' blocks,
      DataBlocks df dataType confirm = Normal (df', (blocks, None))
      ∧ DataFragment.Stored df' + 4 ≤ DataFragment.Needed df' * c
      ∧ (∀ m, DataFragment.Stored df' + 4 ≤ m * c →
              DataFragment.Needed df' ≤ m)
      ∧ 1 ≤ DataFragment.Needed df' ≤ 151.
Proof.
  intros df dataType confirm c.
  assert (knownDataType dataType) as Hk by (left; reflexivity).
  split; [assumption|].
  exact (DataBlocks_Needed_least df dataType confirm Hk).
Defined.

(** A fragment of 1502 bytes. *)
Lemma DataBlocks_ignores_bytes_past_1500_witness :
  let df := DataFragment.mk (Bytes (replicate 1502 1) []) 0 0 0 in
  let dataType := Reference.Rate34Data in
  let confirm := false in
  let df1500 :=
    DataFragment.mk
      (Bytes (take (Z.to_nat MaxPacketFragmentSize)
                   (elems (DataFragment.Data df))) [])
      (DataFragment.Stored df) (DataFragment.Needed df)
      (DataFragment.CRC df) in
  knownDataType dataType
  ∧ ∃ df' blocks,
      DataBlocks df dataType confirm = Normal (df', (blocks, None))
      ∧ DataBlocks df1500 dataType confirm
        = Normal (DataFragment.mk (DataFragment.Data df1500)
                                  (DataFragment.Stored df')
                                  (DataFragment.Needed df')
                                  (DataFragment.CRC df'),
                  (blocks, None))
      ∧ DataFragment.Data df' = DataFragment.Data df
      ∧ DataFragment.Stored df' ≤ MaxPacketFragmentSize.
Proof.
  intros df dataType confirm df1500.
  assert (knownDataType dataType) as Hk by (right; left; reflexivity).
  split; [assumption|].
  exact (DataBlocks_ignores_bytes_past_1500 df dataType confirm Hk).
Defined.

(** The layout of the blocks for the payload [1; 2; 3]. *)
Lemma DataBlocks_layout_witness :
  let df := DataFragment.mk (Bytes [1; 2; 3] []) 0 0 0 in
  let dataType := Reference.Data in
  let confirm := false in
  let c := userDataLength dataType confirm in
  knownDataType dataType
  ∧ ∃ df' blocks,
      DataBlocks df dataType confirm = Normal (df', (blocks, None))
      ∧ concat ((λ b, elems (DataBlock.Data b)) <$> blocks)
        = take (Z.to_nat (DataFragment.Stored df'))
               (elems (DataFragment.Data df))
          ++ replicate (Z.to_nat (DataFragment.Needed df' * c - 4
                                  - DataFragment.Stored df')) 0
          ++ trailer (DataFragment.CRC df').
Proof.
  intros df dataType confirm c.
  assert (knownDataType dataType) as Hk by (right; right; reflexivity).
  split; [assumption|].
  exact (DataBlocks_layout df dataType confirm Hk).
Defined.

(** The fields of the blocks for the payload [1; 2; 3]. *)
Lemma DataBlocks_block_fields_witness :
  let df := DataFragment.mk (Bytes [1; 2; 3] []) 0 0 0 in
  let dataType := Reference.Rate12Data in
  let confirm := true in
  knownDataType dataType
  ∧ ∃ df' blocks,
      DataBlocks df dataType confirm = Normal (df', (blocks, None))
      ∧ ∀ (i : nat) b, blocks !! i = Some b →
          DataBlock.Serial b = Z.of_nat i `mod` 128
          ∧ DataBlock.CRC b
            = calculateCRC9 (DataBlock.Serial b) (DataBlock.Data b) dataType
          ∧ DataBlock.OK b = false.
Proof.
  intros df dataType confirm.
  assert (knownDataType dataType) as Hk by (left; reflexivity).
  split; [assumption|].
  exact (DataBlocks_block_fields df dataType confirm Hk).
Defined.

(** The blocks of the payload [1; 2; 3], confirmed, through the wire. *)
Lemma DataBlocks_blocks_parse_back_witness :
  let df := DataFragment.mk (Bytes [1; 2; 3] []) 0 0 0 in
  let dataType := Reference.Rate12Data in
  let confirm := true in
  knownDataType dataType
  ∧ ∃ df' blocks,
      DataBlocks df dataType confirm = Normal (df', (blocks, None))
      ∧ Forall
          (λ b, ∃ wire,
             DataBlock_Bytes b dataType confirm = Normal (b, wire)
             ∧ ParseDataBlock wire dataType confirm
               = Normal (Some (if confirm
                               then DataBlock.mk (DataBlock.Serial b)
                                                 (DataBlock.CRC b) true
                                                 (DataBlock.Data b)
                                                 (DataBlock.Length b)
                               else DataBlock.mk 0 0 true (DataBlock.Data b)
                                                 (DataBlock.Length b)),
                         None))
          blocks.
Proof.
  intros df dataType confirm.
  assert (knownDataType dataType) as Hk by (left; reflexivity).
  split; [assumption|].
  exact (DataBlocks_blocks_parse_back df dataType confirm Hk).
Defined.

(** Two blocks with the same payload and different serial, CRC-9 and
    [OK] flag. *)
Lemma CombineDataBlocks_reads_payload_and_length_witness :
  let blocks := [DataBlock.mk 0 271 false (Bytes (replicate 12 0) []) 12] in
  let blocks' := [DataBlock.mk 9 9 true (Bytes (replicate 12 0) []) 12] in
  Forall2 (λ b b', DataBlock.Data b = DataBlock.Data b'
                   ∧ DataBlock.Length b = DataBlock.Length b')
          blocks blocks'
  ∧ CombineDataBlocks blocks = CombineDataBlocks blocks'.
Proof.
  intros blocks blocks'.
  assert (Forall2 (λ b b', DataBlock.Data b = DataBlock.Data b'
                           ∧ DataBlock.Length b = DataBlock.Length b')
                  blocks blocks') as Hall
    by (repeat constructor).
  split; [assumption|].
  exact (CombineDataBlocks_reads_payload_and_length blocks blocks' Hall).
Defined.

(** The block of an empty fragment, reassembled. *)
Lemma CombineDataBlocks_result_bounds_witness :
  let blocks := [DataBlock.mk 0 271 false (Bytes (replicate 12 0) []) 12] in
  let f := DataFragment.mk (make 1500) 12 0 0 in
  (Forall (λ b, 0 ≤ DataBlock.Length b) blocks
   ∧ CombineDataBlocks blocks = Normal (Some f, None))
  ∧ len (DataFragment.Data f) = MaxPacketFragmentSize
  ∧ 0 ≤ DataFragment.Stored f ≤ MaxPacketFragmentSize + 3
  ∧ DataFragment.Needed f = 0.
Proof.
  intros blocks f.
  assert (Forall (λ b, 0 ≤ DataBlock.Length b) blocks) as Hall
    by (repeat constructor; vm_compute; discriminate).
  assert (CombineDataBlocks blocks = Normal (Some f, None)) as Hf
    by (vm_compute; reflexivity).
  split; [split; assumption|].
  exact (CombineDataBlocks_result_bounds blocks f Hall Hf).
Defined.

(** An empty block ahead of the block of an empty fragment. *)
Lemma CombineDataBlocks_skips_empty_block_witness :
  let l1 := [] in
  let block := DataBlock.mk 0 0 false (make 0) 0 in
  let l2 := [DataBlock.mk 0 271 false (Bytes (replicate 12 0) []) 12] in
  (DataBlock.Length block = 0 ∧ l2 ≠ [])
  ∧ CombineDataBlocks (l1 ++ block :: l2) = CombineDataBlocks (l1 ++ l2).
Proof.
  intros l1 block l2.
  assert (l2 ≠ []) as Hl2 by discriminate.
  split; [split; [reflexivity|assumption]|].
  exact (CombineDataBlocks_skips_empty_block l1 block l2 eq_refl Hl2).
Defined.

(** A single block of three bytes. *)
Lemma CombineDataBlocks_short_final_block_witness :
  let block := DataBlock.mk 0 0 false (make 3) 3 in
  (1 ≤ DataBlock.Length block ≤ 3
   ∧ DataBlock.Length block ≤ cap (DataBlock.Data block)
   ∧ len (DataBlock.Data block) ≤ DataBlock.Length block + 252)
  ∧ CombineDataBlocks [block]
    = Panics (IndexOutOfRange (DataBlock.Length block + 252)
                              (len (DataBlock.Data block))).
Proof.
  intros block.
  assert (1 ≤ DataBlock.Length block ≤ 3) as Hlen
    by (split; vm_compute; discriminate).
  assert (DataBlock.Length block ≤ cap (DataBlock.Data block)) as Hcap
    by (vm_compute; discriminate).
  assert (len (DataBlock.Data block) ≤ DataBlock.Length block + 252) as Hdata
    by (vm_compute; discriminate).
  split; [exact (conj Hlen (conj Hcap Hdata))|].
  exact (CombineDataBlocks_short_final_block_panics block Hlen Hcap Hdata).
Defined.

(** The payload [1; 2; 3], as confirmed rate 1/2 blocks, to the wire and
    back. *)
Lemma fragment_wire_roundtrip_witness :
  let df := DataFragment.mk (Bytes [1; 2; 3] []) 0 0 0 in
  let dataType := Reference.Rate12Data in
  let confirm := true in
  let c := userDataLength dataType confirm in
  let stored := Z.min (len (DataFragment.Data df)) MaxPacketFragmentSize in
  let needed := neededBlocks stored c in
  (knownDataType dataType
   ∧ DataFragment.CRC df = 0
   ∧ needed * c - 4 < MaxPacketFragmentSize)
  ∧ ∃ df' blocks parsed f,
      DataBlocks df dataType confirm = Normal (df', (blocks, None))
      ∧ Forall2
          (λ b p, ∃ wire,
             DataBlock_Bytes b dataType confirm = Normal (b, wire)
             ∧ ParseDataBlock wire dataType confirm = Normal (Some p, None))
          blocks parsed
      ∧ CombineDataBlocks parsed = Normal (Some f, None)
      ∧ take (Z.to_nat (needed * c - 4)) (elems (DataFragment.Data f))
        = take (Z.to_nat stored) (elems (DataFragment.Data df))
          ++ replicate (Z.to_nat (needed * c - 4 - stored)) 0
      ∧ DataFragment.Stored f = needed * c
      ∧ DataFragment.CRC f = DataFragment.CRC df'.
Proof.
  intros df dataType confirm c stored needed.
  assert (knownDataType dataType) as Hk by (left; reflexivity).
  assert (needed * c - 4 < MaxPacketFragmentSize) as Hfit
    by (vm_compute; reflexivity).
  split; [repeat split; (assumption || reflexivity)|].
  exact (fragment_wire_roundtrip df dataType confirm Hk eq_refl Hfit).
Defined.

(** The bytes of ["Hi"], a zero byte and ["!"], in a format whose
    encoding leaves the bytes as they are. *)
Lemma ParseMessageData_null_terminated_witness :
  let e : Encoding unit := {| encoderBytes := inl; decoderBytes := inl |} in
  let encodingMap : gmap Z (Encoding unit) := {[ 0 := e ]} in
  let data := [72; 105; 0; 33] in
  let str := data in
  (encodingMap !! 0 = Some e ∧ decoderBytes e data = inl str)
  ∧ ∃ msg,
      ParseMessageData encodingMap data 0 true = (msg, None)
      ∧ (0 ∉ msg)
      ∧ (((0 ∉ str) ∧ msg = str) ∨ ∃ rest, str = msg ++ 0 :: rest).
Proof.
  intros e encodingMap data str.
  assert (encodingMap !! 0 = Some e) as He by reflexivity.
  split; [split; [assumption|reflexivity]|].
  exact (ParseMessageData_null_terminated encodingMap data 0 e str He eq_refl).
Defined.

(** The bytes of ["Hi"], null terminated, in a format whose encoding
    leaves the bytes as they are. *)
Lemma BuildMessageData_ParseMessageData_witness :
  let e : Encoding unit := {| encoderBytes := inl; decoderBytes := inl |} in
  let encodingMap : gmap Z (Encoding unit) := {[ 0 := e ]} in
  let msg := [72; 105] in
  let data := msg in
  let rest := [0] in
  (encodingMap !! 0 = Some e
   ∧ encoderBytes e msg = inl data
   ∧ decoderBytes e (data ++ [0; 0]) = inl (msg ++ 0 :: rest)
   ∧ (0 ∉ msg))
  ∧ BuildMessageData encodingMap msg 0 true = (Some (data ++ [0; 0]), None)
  ∧ ParseMessageData encodingMap (data ++ [0; 0]) 0 true = (msg, None).
Proof.
  intros e encodingMap msg data rest.
  assert (encodingMap !! 0 = Some e) as He by reflexivity.
  assert (0 ∉ msg) as Hmsg
    by (intros Hin; repeat (apply elem_of_cons in Hin as [Hin|Hin];
                            [discriminate|]);
        by apply elem_of_nil in Hin).
  split; [repeat split; (assumption || reflexivity)|].
  exact (BuildMessageData_ParseMessageData encodingMap msg 0 e data rest
           He eq_refl eq_refl Hmsg).
Defined.

(** 1500 zero bytes as unconfirmed rate 1/2 blocks: 126 blocks of twelve
    bytes, of which the reassembler stores 125. *)
Lemma CombineDataBlocks_drops_a_block_witness :
  let df := DataFragment.mk (Bytes (replicate 1500 0) []) 0 0 0 in
  let dataType := Reference.Rate12Data in
  let confirm := false in
  let c := userDataLength dataType confirm in
  let stored := Z.min (len (DataFragment.Data df)) MaxPacketFragmentSize in
  let needed := neededBlocks stored c in
  (knownDataType dataType ∧ MaxPacketFragmentSize ≤ needed * c - 4)
  ∧ (∃ df' blocks,
       DataBlocks df dataType confirm = Normal (df', (blocks, None))
       ∧ ∀ f, CombineDataBlocks blocks = Normal (Some f, None) →
              DataFragment.Stored f < needed * c)
  ∧ needed * c = 1512
  ∧ CombineDataBlocks (fragmentBlocks df dataType c)
    = Normal (Some (DataFragment.mk (make 1500) 1500 0 0), None).
Proof.
  intros df dataType confirm c stored needed.
  assert (knownDataType dataType) as Hk by (left; reflexivity).
  assert (MaxPacketFragmentSize ≤ needed * c - 4) as Hbig
    by (vm_compute; discriminate).
  split; [split; assumption|].
  split; [exact (CombineDataBlocks_drops_a_block df dataType confirm Hk Hbig)|].
  split; vm_compute; reflexivity.
Defined.

(** The block of an empty fragment: twelve zero bytes. *)
Lemma CombineDataBlocks_concat_witness :
  let init := [] in
  let last := DataBlock.mk 0 271 false (Bytes (replicate 12 0) []) 12 in
  let blocks := init ++ [last] in
  let payload := concat ((λ b, elems (DataBlock.Data b)) <$> blocks) in
  let total := Z.of_nat (length payload) in
  let buffer :=
    list_inserts 0 payload (replicate (Z.to_nat MaxPacketFragmentSize) 0) in
  let crc :=
    crc32end
      (foldl (λ crc i, crc32 (crc32 crc (byteAt buffer (Z.to_nat (i + 1))))
                             (byteAt buffer (Z.to_nat i)))
             0 (pair_offsets (total - 4))) in
  (Forall (λ b, 0 < DataBlock.Length b
                ∧ len (DataBlock.Data b) = DataBlock.Length b) blocks
   ∧ 4 ≤ DataBlock.Length last ≤ 255
   ∧ total - 4 < MaxPacketFragmentSize)
  ∧ CombineDataBlocks blocks
    = Normal (if decide (crc ≠ storedCRC32 last)
              then (None, Some (FragmentCRCError crc (storedCRC32 last)))
              else (Some (DataFragment.mk (Bytes buffer []) total 0
                                          (storedCRC32 last)),
                    None)).
Proof.
  intros init last blocks payload total buffer crc.
  assert (Forall (λ b, 0 < DataBlock.Length b
                       ∧ len (DataBlock.Data b) = DataBlock.Length b) blocks)
    as Hall by (repeat constructor).
  assert (4 ≤ DataBlock.Length last ≤ 255) as Hlast
    by (split; vm_compute; discriminate).
  assert (total - 4 < MaxPacketFragmentSize) as Hfit
    by (vm_compute; reflexivity).
  split; [exact (conj Hall (conj Hlast Hfit))|].
  exact (CombineDataBlocks_concat init last Hall Hlast Hfit).
Defined.

(** The wire form of the confirmed rate 1/2 block with serial 5 and ten
    payload bytes 7, whose CRC-9 is 291. *)
Lemma ParseDataBlock_sound_witness :
  let data := Bytes [11; 35; 7; 7; 7; 7; 7; 7; 7; 7; 7; 7] [] in
  let dataType := Reference.Rate12Data in
  let confirmed := true in
  let b := DataBlock.mk 5 291 true (Bytes (replicate 10 7) []) 10 in
  let err := None in
  ParseDataBlock data dataType confirmed = Normal (Some b, err)
  ∧ err = None
  ∧ DataBlock.OK b = true
  ∧ DataBlock.Length b = userDataLength dataType confirmed
  ∧ len (DataBlock.Data b) = DataBlock.Length b
  ∧ (confirmed = true →
     DataBlock.CRC b
     = calculateCRC9 (DataBlock.Serial b) (DataBlock.Data b) dataType).
Proof.
  intros data dataType confirmed b err.
  assert (ParseDataBlock data dataType confirmed = Normal (Some b, err))
    as Hparse by (vm_compute; reflexivity).
  split; [assumption|].
  exact (ParseDataBlock_sound data dataType confirmed b err Hparse).
Defined.
